(** * Verification of improved_ultimate_4model_setup.py

    A shallow embedding of [ImprovedUltimate4ModelPlatform]: the start-up
    sequence ([__init__], [setup_*_client], the Google key/model
    resolution loop), the four [get_*_response] methods and the
    comparison runner [compare_all_models_enhanced].

    Modelling conventions.
    - A Python [str] is a list of Unicode code points ([pystr]), so that
      slicing [s[:100]] is [firstn 100 s] exactly as in Python.
    - The JSON value returned by [response.json()] is a [pyobj].
    - Everything the program asks of the outside world (client
      constructors, the Gemini probe, the vendor SDK calls, the HTTP POST)
      is an oracle of the record [world].  A call that raises an
      [Exception] inside a [try ... except Exception] block is the oracle
      answer [Raised msg] with [msg = str(e)].
    - The object's attributes form the record [platform]; the methods run
      in a state monad [M] over the platform and a log of observable
      events (external calls and attribute assignments).
    - Printing is omitted: it neither changes the state nor the results. *)

From Stdlib Require Import ZArith NArith Ascii String List Bool Lia.
From stdpp Require Import base gmap strings list.

Set Default Proof Using "Type".
Local Set Warnings "-register-all".

(* ------------------------------------------------------------------ *)
(** ** Python strings *)

Definition pystr := list N.

(** An ASCII Rocq literal as a Python string. *)
Definition u (s : string) : pystr := map N_of_ascii (list_ascii_of_string s).

(** U+274C CROSS MARK, the failure marker of every error text. *)
Definition cross_mark : N := 10060%N.

(** [f"❌<rest>"] *)
Definition xtext (rest : string) : pystr := cross_mark :: u rest.

Definition pystr_eqb (a b : pystr) : bool := bool_decide (a = b).

(** [if s:] on an [Optional[str]]: [None] and [""] are falsy. *)
Definition truthy (o : option pystr) : bool :=
  match o with Some (_ :: _) => true | _ => false end.

(** [needle in hay] for two strings (substring test). *)
Fixpoint py_str_prefix (p s : pystr) : bool :=
  match p, s with
  | [], _ => true
  | c :: p', d :: s' => N.eqb c d && py_str_prefix p' s'
  | _ :: _, [] => false
  end.

Fixpoint py_str_in (needle hay : pystr) : bool :=
  py_str_prefix needle hay ||
  match hay with [] => false | _ :: hay' => py_str_in needle hay' end.

(** [s.lower()] on ASCII letters; other code points are left as they are.
    This is exact for the uses below: a substring test for "overloaded" and
    comparisons with "quit" and "test".  The only other code points whose
    lower case contains an ASCII letter are U+212A (to "k", in none of the
    three words) and U+0130 (to "i" followed by U+0307), and a string
    holding U+0130 lowers to a string equal to neither "quit" nor "test",
    in Python as here. *)
Definition py_lower_cp (c : N) : N :=
  if (65 <=? c)%N && (c <=? 90)%N then (c + 32)%N else c.
Definition py_lower (s : pystr) : pystr := map py_lower_cp s.

(** [str(n)] for a Python [int]. *)
Fixpoint digits_rev (fuel : nat) (n : N) : pystr :=
  match fuel with
  | O => []
  | S f =>
      (48 + N.modulo n 10)%N ::
      (if (N.div n 10 =? 0)%N then [] else digits_rev f (N.div n 10))
  end.
Definition str_of_N (n : N) : pystr := rev (digits_rev (S (N.size_nat n)) n).
Definition py_str_int (z : Z) : pystr :=
  if (z <? 0)%Z then 45%N :: str_of_N (Z.to_N (- z)) else str_of_N (Z.to_N z).

(* ------------------------------------------------------------------ *)
(** ** Python objects produced by [json.loads] and fallible operations *)

(** Numbers (int or float) only matter through their type here. *)
Inductive pyobj : Type :=
| PNone
| PBool (b : bool)
| PNum (z : Z)
| PStr (s : pystr)
| PList (l : list pyobj)
| PDict (kvs : list (pystr * pyobj)).

(** Result of a Python expression: a value, or an exception with [str(e)]. *)
Inductive pyres (A : Type) : Type :=
| PyOk (a : A)
| PyExc (msg : pystr).
Arguments PyOk {A} _.
Arguments PyExc {A} _.

Global Instance pyres_ret : MRet pyres := λ A a, PyOk a.
Global Instance pyres_bind : MBind pyres := λ A B f m,
  match m with PyOk a => f a | PyExc e => PyExc e end.

Definition type_name (o : pyobj) : string :=
  match o with
  | PNone => "NoneType" | PBool _ => "bool" | PNum _ => "int"
  | PStr _ => "str" | PList _ => "list" | PDict _ => "dict"
  end.

(** [json.loads] keeps the last binding of a repeated key. *)
Fixpoint assoc_first (k : pystr) (kvs : list (pystr * pyobj)) : option pyobj :=
  match kvs with
  | [] => None
  | (k', v) :: kvs' => if pystr_eqb k' k then Some v else assoc_first k kvs'
  end.
Definition dict_lookup (k : pystr) (kvs : list (pystr * pyobj)) : option pyobj :=
  assoc_first k (rev kvs).

(** [key in o] for a string [key]. *)
Definition py_contains (key : pystr) (o : pyobj) : pyres bool :=
  match o with
  | PDict kvs => PyOk (bool_decide (is_Some (dict_lookup key kvs)))
  | PList l =>
      PyOk (existsb (λ x, match x with PStr s => pystr_eqb s key | _ => false end) l)
  | PStr s => PyOk (py_str_in key s)
  | _ => PyExc (u ("argument of type '" ++ type_name o ++ "' is not iterable"))
  end.

(** [o[key]] for a string [key]. *)
Definition py_getitem_str (o : pyobj) (key : pystr) : pyres pyobj :=
  match o with
  | PDict kvs =>
      match dict_lookup key kvs with
      | Some v => PyOk v
      | None => PyExc (u "'" ++ key ++ u "'")
      end
  | PList _ => PyExc (u "list indices must be integers or slices, not str")
  | PStr _ => PyExc (u "string indices must be integers, not 'str'")
  | _ => PyExc (u ("'" ++ type_name o ++ "' object is not subscriptable"))
  end.

(** [o[0]]; JSON object keys are strings, so a dict never has key [0]. *)
Definition py_getitem_0 (o : pyobj) : pyres pyobj :=
  match o with
  | PList (x :: _) => PyOk x
  | PList [] => PyExc (u "list index out of range")
  | PStr (c :: _) => PyOk (PStr [c])
  | PStr [] => PyExc (u "string index out of range")
  | PDict _ => PyExc (u "0")
  | _ => PyExc (u ("'" ++ type_name o ++ "' object is not subscriptable"))
  end.

(** [len(o)] *)
Definition py_len (o : pyobj) : pyres nat :=
  match o with
  | PDict kvs => PyOk (length kvs)
  | PList l => PyOk (length l)
  | PStr s => PyOk (length s)
  | _ => PyExc (u ("object of type '" ++ type_name o ++ "' has no len()"))
  end.

(* ------------------------------------------------------------------ *)
(** ** The platform object and the outside world *)

(** Objects stored in [self.clients]. *)
Inductive client : Type :=
| OpenAIClient (api_key : pystr)                (* OpenAI(api_key=...) *)
| ClaudeClient (api_key : pystr)                (* anthropic.Anthropic(api_key=...) *)
| GeminiModel (api_key model_name : pystr).     (* genai.GenerativeModel(model_name)
                                                   under genai.configure(api_key=...) *)

(** The attributes of [ImprovedUltimate4ModelPlatform]. *)
Record platform : Type := Platform {
  openai_key : option pystr;
  llama_key : option pystr;
  google_keys : list pystr;
  claude_key : option pystr;
  active_google_key : option pystr;
  active_google_model : option pystr;
  clients : gmap string client
}.

(** [{"role": ..., "content": ...}] *)
Record message : Type := Message { role : pystr; content : pystr }.

(** Observable events: calls to the outside world, and assignments to the
    attributes of [self] after construction. *)
Inductive event : Type :=
| EProbe (api_key model_name : pystr)
    (* genai.configure; GenerativeModel; generate_content("Hi", max_output_tokens=5) *)
| EAssign (attr : string)
| EOpenAICall (api_key model : pystr) (msgs : list message)
| EClaudeCall (api_key model : pystr) (system : option pystr) (msgs : list message)
| EGeminiCall (api_key model_name : pystr) (full_prompt : pystr)
| ELlamaPost (api_key : pystr) (msgs : list message).

Global Instance message_eq_dec : EqDecision message.
Proof. solve_decision. Defined.
Global Instance event_eq_dec : EqDecision event.
Proof. solve_decision. Defined.

(** Answer of an external call made inside [try ... except Exception]. *)
Inductive outcome (A : Type) : Type :=
| Returned (a : A)
| Raised (msg : pystr).
Arguments Returned {A} _.
Arguments Raised {A} _.

(** Body of an HTTP reply: [response.json()] either parses or raises. *)
Inductive json_body : Type :=
| BodyJson (v : pyobj)
| BodyInvalid (msg : pystr).

(** Answer of [requests.post(...)]. *)
Inductive http_outcome : Type :=
| HttpRaised (msg : pystr)
| HttpReply (status_code : Z) (body : json_body).

(** The outside world.  [probe k m] is whether the whole [try] body of the
    resolution loop succeeds for key [k] and model [m]; a failing probe is
    any [Exception] caught by its [except Exception]. *)
Record world : Type := World {
  openai_ctor_ok : pystr → bool;
  claude_ctor_ok : pystr → bool;
  genai_importable : bool;
  probe : pystr → pystr → bool;
  openai_chat : pystr → pystr → list message → outcome pyobj;
    (* response.choices[0].message.content, a str or None *)
  claude_create : pystr → pystr → option pystr → list message → outcome pystr;
    (* response.content[0].text *)
  gemini_generate : pystr → pystr → pystr → outcome pystr;
    (* response.text *)
  llama_post : pystr → list message → http_outcome
}.

(** [os.getenv] *)
Definition environ := string → option pystr.

(* ------------------------------------------------------------------ *)
(** ** A state monad over the platform, with an event log *)

Record sess : Type := Sess { plat : platform; log : list event }.

Definition M (A : Type) : Type := sess → A * sess.

Global Instance M_ret : MRet M := λ A a s, (a, s).
Global Instance M_bind : MBind M := λ A B f m s, let '(a, s') := m s in f a s'.

Definition get_plat : M platform := λ s, (plat s, s).

Definition emit (e : event) : M unit :=
  λ s, (tt, Sess (plat s) (log s ++ [e])).

Definition modify_plat (f : platform → platform) : M unit :=
  λ s, (tt, Sess (f (plat s)) (log s)).

(** [self.active_google_key = k] *)
Definition set_active_google_key (k : option pystr) : M unit :=
  emit (EAssign "active_google_key");;
  modify_plat (λ p, Platform (openai_key p) (llama_key p) (google_keys p)
                      (claude_key p) k (active_google_model p) (clients p)).

(** [self.active_google_model = m] *)
Definition set_active_google_model (m : option pystr) : M unit :=
  emit (EAssign "active_google_model");;
  modify_plat (λ p, Platform (openai_key p) (llama_key p) (google_keys p)
                      (claude_key p) (active_google_key p) m (clients p)).

(** [self.clients[name] = c] *)
Definition set_client (name : string) (c : client) : M unit :=
  emit (EAssign ("clients['" ++ name ++ "']"));;
  modify_plat (λ p, Platform (openai_key p) (llama_key p) (google_keys p)
                      (claude_key p) (active_google_key p) (active_google_model p)
                      (<[name := c]> (clients p))).

(* ------------------------------------------------------------------ *)
(** ** Start-up: [__init__] and [setup_all_clients] *)

(** [[k for k in keys if k]] *)
Fixpoint drop_falsy (ks : list (option pystr)) : list pystr :=
  match ks with
  | [] => []
  | Some (c :: s) :: ks' => (c :: s) :: drop_falsy ks'
  | _ :: ks' => drop_falsy ks'
  end.

(** The attribute initialisations of [__init__] (lines 71-84). *)
Definition init_fields (getenv : environ) : platform := {|
  openai_key := getenv "OPENAI_API_KEY";
  llama_key := getenv "LLAMA_API_KEY";
  google_keys := drop_falsy [getenv "GOOGLE_API_KEY";
                             getenv "GOOGLE_API_KEY_BACKUP";
                             getenv "GOOGLE_API_KEY_BACKUP2"];
  claude_key := getenv "CLAUDE_API_KEY";
  active_google_key := None;
  active_google_model := None;
  clients := ∅
|}.

Definition openai_placeholder : pystr := u "your-openai-key-here".

Definition setup_openai_client (w : world) : M bool :=
  p ← get_plat;
  match openai_key p with
  | Some k =>
      if negb (truthy (Some k)) || pystr_eqb k openai_placeholder then mret false
      else if openai_ctor_ok w k then set_client "openai" (OpenAIClient k);; mret true
      else mret false
  | None => mret false
  end.

Definition setup_claude_client (w : world) : M bool :=
  p ← get_plat;
  match claude_key p with
  | Some k =>
      if negb (truthy (Some k)) then mret false
      else if claude_ctor_ok w k then set_client "claude" (ClaudeClient k);; mret true
      else mret false
  | None => mret false
  end.

Definition model_names_to_try : list pystr :=
  [u "gemini-1.5-pro-latest"; u "gemini-1.5-pro"; u "gemini-pro"; u "gemini-1.0-pro"].

(** Inner loop [for model_name in model_names_to_try]; [true] when the
    method returned [True] from inside it. *)
Fixpoint try_models (w : world) (key : pystr) (names : list pystr) : M bool :=
  match names with
  | [] => mret false
  | model_name :: names' =>
      emit (EProbe key model_name);;
      if probe w key model_name then
        set_active_google_key (Some key);;
        set_active_google_model (Some model_name);;
        set_client "google" (GeminiModel key model_name);;
        mret true
      else try_models w key names'
  end.

(** Outer loop [for key_idx, key in enumerate(self.google_keys)]
    ([key_idx] is only printed). *)
Fixpoint try_keys (w : world) (keys : list pystr) : M bool :=
  match keys with
  | [] => mret false
  | key :: keys' =>
      try_models w key model_names_to_try ≫= λ b : bool,
      if b then mret true else try_keys w keys'
  end.

(** [setup_google_client].  The module imports [google.generativeai] at
    load time, so the import inside the method either succeeds or raises
    [ImportError] (handled); [genai_importable] says which. *)
Definition setup_google_client (w : world) : M bool :=
  p ← get_plat;
  match google_keys p with
  | [] => mret false
  | _ :: _ =>
      if negb (genai_importable w) then mret false
      else try_keys w (google_keys p)
  end.

Definition setup_all_clients (w : world) : M unit :=
  setup_openai_client w;;
  setup_claude_client w;;
  setup_google_client w;;
  mret tt.

(** The session right after [ImprovedUltimate4ModelPlatform()]. *)
Definition startup (w : world) (getenv : environ) : sess :=
  snd (setup_all_clients w (Sess (init_fields getenv) [])).

(* ------------------------------------------------------------------ *)
(** ** The [get_*_response] methods *)

Inductive provider : Type := POpenAI | PClaude | PGoogle | PLlama.

(** [if system_prompt:] with the value bound *)
Definition sys_text (sys : option pystr) : option pystr :=
  if truthy sys then sys else None.

Definition user_msg (prompt : pystr) : message := Message (u "user") prompt.

(** [messages] of the OpenAI and Llama methods: the system message when
    [system_prompt] is truthy, then the user message. *)
Definition chat_messages (prompt : pystr) (sys : option pystr) : list message :=
  match sys_text sys with
  | Some s => [Message (u "system") s; user_msg prompt]
  | None => [user_msg prompt]
  end.

Definition get_openai_response (w : world) (prompt : pystr) (sys : option pystr)
    : M pyobj :=
  p ← get_plat;
  match clients p !! "openai" with
  | None => mret (PStr (xtext " OpenAI not available"))
  | Some (OpenAIClient k) =>
      let msgs := chat_messages prompt sys in
      emit (EOpenAICall k (u "gpt-4") msgs);;
      match openai_chat w k (u "gpt-4") msgs with
      | Returned content => mret content
      | Raised e => mret (PStr (xtext " OpenAI Error: " ++ firstn 100 e))
      end
  | Some _ =>
      mret (PStr (xtext " OpenAI Error: " ++ u "object has no attribute 'chat'"))
  end.

Definition claude_model : pystr := u "claude-3-5-sonnet-20241022".

Definition get_claude_response (w : world) (prompt : pystr) (sys : option pystr)
    : M pyobj :=
  p ← get_plat;
  match clients p !! "claude" with
  | None => mret (PStr (xtext " Claude not available"))
  | Some (ClaudeClient k) =>
      let msgs := [user_msg prompt] in
      emit (EClaudeCall k claude_model (sys_text sys) msgs);;
      match claude_create w k claude_model (sys_text sys) msgs with
      | Returned text => mret (PStr text)
      | Raised error_msg =>
          if py_str_in (u "overloaded") (py_lower error_msg)
          then mret (PStr (xtext " Claude temporarily overloaded - try again in a moment"))
          else mret (PStr (xtext " Claude Error: " ++ firstn 100 error_msg))
      end
  | Some _ =>
      mret (PStr (xtext " Claude Error: " ++ u "object has no attribute 'messages'"))
  end.

(** [f"Instructions: {system_prompt}\n\nUser: {prompt}"] or [prompt]. *)
Definition gemini_full_prompt (prompt : pystr) (sys : option pystr) : pystr :=
  match sys_text sys with
  | Some s => u "Instructions: " ++ s ++ [10%N; 10%N] ++ u "User: " ++ prompt
  | None => prompt
  end.

Definition get_google_response (w : world) (prompt : pystr) (sys : option pystr)
    : M pyobj :=
  p ← get_plat;
  match clients p !! "google" with
  | None => mret (PStr (xtext " Google not available"))
  | Some (GeminiModel k m) =>
      let full_prompt := gemini_full_prompt prompt sys in
      emit (EGeminiCall k m full_prompt);;
      match gemini_generate w k m full_prompt with
      | Returned text => mret (PStr text)
      | Raised e => mret (PStr (xtext " Google Error: " ++ firstn 100 e))
      end
  | Some _ =>
      mret (PStr (xtext " Google Error: " ++ u "object has no attribute 'generate_content'"))
  end.

Definition unexpected_llama_format : pystr := xtext " Unexpected Llama response format".

(** Lines 340-347, on the value of [response.json()]. *)
Definition llama_parse (result : pyobj) : pyres pyobj :=
  py_contains (u "choices") result ≫= λ has_choices : bool,
  (if has_choices then
     ch ← py_getitem_str result (u "choices");
     n ← py_len ch;
     mret (0 <? n)%nat
   else mret false) ≫= λ nonempty : bool,
  if nonempty then
    ch ← py_getitem_str result (u "choices");
    c0 ← py_getitem_0 ch;
    py_contains (u "message") c0 ≫= λ has_message : bool,
    if has_message then
      msg ← py_getitem_str c0 (u "message");
      py_getitem_str msg (u "content")
    else
      py_contains (u "text") c0 ≫= λ has_text : bool,
      if has_text then py_getitem_str c0 (u "text")
      else mret (PStr unexpected_llama_format)
  else mret (PStr unexpected_llama_format).

Definition llama_error (e : pystr) : pyobj := PStr (xtext " Llama Error: " ++ firstn 100 e).

Definition get_llama_response (w : world) (prompt : pystr) (sys : option pystr)
    : M pyobj :=
  p ← get_plat;
  match llama_key p with
  | Some ((_ :: _) as k) =>
      let msgs := chat_messages prompt sys in
      emit (ELlamaPost k msgs);;
      match llama_post w k msgs with
      | HttpRaised e => mret (llama_error e)
      | HttpReply status body =>
          if (status =? 200)%Z then
            match body with
            | BodyInvalid e => mret (llama_error e)
            | BodyJson result =>
                match llama_parse result with
                | PyOk r => mret r
                | PyExc e => mret (llama_error e)
                end
            end
          else mret (PStr (xtext " Llama API Error: " ++ py_str_int status))
      end
  | _ => mret (PStr (xtext " Llama not available"))
  end.

Definition respond (w : world) (pr : provider) : pystr → option pystr → M pyobj :=
  match pr with
  | POpenAI => get_openai_response w
  | PClaude => get_claude_response w
  | PGoogle => get_google_response w
  | PLlama => get_llama_response w
  end.

(** Availability as each method tests it on entry. *)
Definition available (p : platform) (pr : provider) : bool :=
  match pr with
  | POpenAI => bool_decide (is_Some (clients p !! "openai"))
  | PClaude => bool_decide (is_Some (clients p !! "claude"))
  | PGoogle => bool_decide (is_Some (clients p !! "google"))
  | PLlama => truthy (llama_key p)
  end.

(* ------------------------------------------------------------------ *)
(** ** [compare_all_models_enhanced] and [run_enhanced_4model_test] *)

(** The keys of the [models] dict of [compare_all_models_enhanced]. *)
Definition comparison_models : list (pystr * provider) :=
  [ (129504%N :: u " OpenAI GPT-4", POpenAI);
    (127917%N :: u " Claude Sonnet", PClaude);
    (128269%N :: u " Google Gemini", PGoogle);
    (129433%N :: u " Meta Llama", PLlama) ].

Fixpoint run_models (w : world) (prompt : pystr) (sys : option pystr)
    (models : list (pystr * provider)) : M (list (pystr * pyobj)) :=
  match models with
  | [] => mret []
  | (model_name, pr) :: models' =>
      response ← respond w pr prompt sys;
      rest ← run_models w prompt sys models';
      mret ((model_name, response) :: rest)
  end.

(** The returned [results] dict, in insertion order. *)
Definition compare_all_models_enhanced (w : world) (prompt : pystr) (sys : option pystr)
    : M (list (pystr * pyobj)) :=
  run_models w prompt sys comparison_models.

(** [result.startswith("❌")] *)
Definition py_startswith_mark (o : pyobj) : pyres bool :=
  match o with
  | PStr (c :: _) => PyOk (N.eqb c cross_mark)
  | PStr [] => PyOk false
  | _ => PyExc (u ("'" ++ type_name o ++ "' object has no attribute 'startswith'"))
  end.

Definition test_models : list (pystr * provider) :=
  [ (u "OpenAI GPT-4", POpenAI); (u "Claude Sonnet", PClaude);
    (u "Google Gemini", PGoogle); (u "Meta Llama", PLlama) ].

Definition test_prompt : pystr :=
  u "Hello! Respond with just 'Connection successful!' to test.".

(** The loop of [run_enhanced_4model_test]; an exception of [startswith]
    leaves the method. *)
Fixpoint run_tests (w : world) (models : list (pystr * provider))
    : M (pyres (list pystr)) :=
  match models with
  | [] => mret (PyOk [])
  | (model_name, pr) :: models' =>
      result ← respond w pr test_prompt None;
      match py_startswith_mark result with
      | PyExc e => mret (PyExc e)
      | PyOk failed =>
          rest ← run_tests w models';
          mret (working ← rest;
                mret (if failed then working else model_name :: working))
      end
  end.

Definition run_enhanced_4model_test (w : world) : M (pyres (list pystr)) :=
  run_tests w test_models.

(** Operations available on a constructed platform. *)
Inductive op : Type :=
| OpRespond (pr : provider) (prompt : pystr) (sys : option pystr)
| OpCompare (prompt : pystr) (sys : option pystr)
| OpTest.

Definition run_op (w : world) (o : op) : M unit :=
  match o with
  | OpRespond pr prompt sys => respond w pr prompt sys;; mret tt
  | OpCompare prompt sys => compare_all_models_enhanced w prompt sys;; mret tt
  | OpTest => run_enhanced_4model_test w;; mret tt
  end.

Fixpoint run_ops (w : world) (os : list op) : M unit :=
  match os with
  | [] => mret tt
  | o :: os' => run_op w o;; run_ops w os'
  end.

(* ------------------------------------------------------------------ *)
(** ** [check_all_api_keys] and [display_platform_status] *)

(** The [keys_status] dict of [check_all_api_keys], in insertion order;
    each value is taken by its truth value, as the loop does. *)
Definition keys_status (p : platform) : list (string * bool) :=
  [ ("OpenAI GPT", match openai_key p with
                   | Some k => truthy (Some k) && negb (pystr_eqb k openai_placeholder)
                   | None => false
                   end);
    ("Meta Llama", truthy (llama_key p));
    ("Google Gemini", (0 <? length (google_keys p))%nat);
    ("Anthropic Claude", truthy (claude_key p)) ].

(** [return working_keys > 0] *)
Definition check_all_api_keys (p : platform) : bool :=
  let working_keys := length (List.filter snd (keys_status p)) in
  (0 <? working_keys)%nat.

(** [str(x)] for an [Optional[str]]. *)
Definition py_str_opt (o : option pystr) : pystr :=
  match o with Some s => s | None => u "None" end.

(** The list [available_models] that [display_platform_status] prints. *)
Definition display_platform_status (p : platform) : list pystr :=
  (if bool_decide (is_Some (clients p !! "openai")) then [u "OpenAI GPT-4/3.5"] else []) ++
  (if bool_decide (is_Some (clients p !! "claude")) then [u "Claude Sonnet"] else []) ++
  (if bool_decide (is_Some (clients p !! "google"))
   then [u "Google Gemini (" ++ py_str_opt (active_google_model p) ++ u ")"] else []) ++
  (if truthy (llama_key p) then [u "Meta Llama"] else []).

(* ------------------------------------------------------------------ *)
(** ** [interactive_mode_enhanced] and [main] *)

(** [c.isspace()]: the code points [str.strip()] removes. *)
Definition py_isspace (c : N) : bool :=
  ((9 <=? c) && (c <=? 13) || (28 <=? c) && (c <=? 32) || (c =? 133) || (c =? 160) ||
   (c =? 5760) || (8192 <=? c) && (c <=? 8202) || (c =? 8232) || (c =? 8233) ||
   (c =? 8239) || (c =? 8287) || (c =? 12288))%N.

Fixpoint drop_space (s : pystr) : pystr :=
  match s with
  | c :: s' => if py_isspace c then drop_space s' else s
  | [] => []
  end.

(** [s.strip()] *)
Definition py_strip (s : pystr) : pystr := rev (drop_space (rev (drop_space s))).

(** [str(e)] of the [EOFError] raised by [input()] at the end of input. *)
Definition eof_error : pystr := u "EOF when reading a line".

(** The [while True] loop of [interactive_mode_enhanced], reading the lines
    of standard input; it returns how the loop ended (normally at [quit],
    or with an exception that leaves the method) and the unread lines.
    The [title] argument of the comparison is only printed. *)
Fixpoint interactive_loop (w : world) (lines : list pystr) : M (pyres unit * list pystr) :=
  match lines with
  | [] => mret (PyExc eof_error, [])
  | line :: rest =>
      let user_input := py_strip line in
      if negb (truthy (Some user_input)) then interactive_loop w rest
      else if pystr_eqb (py_lower user_input) (u "quit") then mret (PyOk tt, rest)
      else if pystr_eqb (py_lower user_input) (u "test") then
        run_enhanced_4model_test w ≫= λ r : pyres (list pystr),
        match r with
        | PyOk _ => interactive_loop w rest
        | PyExc e => mret (PyExc e, rest)
        end
      else
        match rest with
        | [] => mret (PyExc eof_error, [])
        | system_line :: rest' =>
            let system_input := py_strip system_line in
            let system_prompt := if truthy (Some system_input) then Some system_input else None in
            compare_all_models_enhanced w user_input system_prompt;;
            interactive_loop w rest'
        end
  end.

Definition interactive_mode_enhanced (w : world) (lines : list pystr)
    : M (pyres unit * list pystr) :=
  interactive_loop w lines.

(** The menu loop of [main]. *)
Fixpoint menu_loop (w : world) (lines : list pystr) : M (pyres unit * list pystr) :=
  match lines with
  | [] => mret (PyExc eof_error, [])
  | line :: rest =>
      let choice := py_strip line in
      if pystr_eqb choice (u "1") then interactive_mode_enhanced w rest
      else if pystr_eqb choice (u "2") then
        match rest with
        | [] => mret (PyExc eof_error, [])
        | prompt :: rest' => compare_all_models_enhanced w prompt None;; mret (PyOk tt, rest')
        end
      else if pystr_eqb choice (u "3") then mret (PyOk tt, rest)
      else menu_loop w rest
  end.

(** [main()] on the lines of standard input: the outcome of its [try]
    block (an exception is then caught by [except Exception] and printed),
    the unread lines, and the final session. *)
Definition main (w : world) (getenv : environ) (lines : list pystr)
    : (pyres unit * list pystr) * sess :=
  (run_enhanced_4model_test w ≫= λ r : pyres (list pystr),
   match r with
   | PyExc e => mret (PyExc e, lines)
   | PyOk working_models =>
       if (0 <? length working_models)%nat then menu_loop w lines
       else mret (PyOk tt, lines)
   end) (startup w getenv).

(* ------------------------------------------------------------------ *)
(** ** Notions used to state the properties *)

(** The pairs of the two nested loops of [setup_google_client], in loop
    order. *)
Definition nested_pairs (keys names : list pystr) : list (pystr * pystr) :=
  flat_map (λ k, map (λ m, (k, m)) names) keys.

(** The credential list handed to the resolution loop. *)
Definition google_candidates (getenv : environ) : list pystr :=
  google_keys (init_fields getenv).

(** The probes recorded in a log. *)
Fixpoint probes (l : list event) : list (pystr * pystr) :=
  match l with
  | [] => []
  | EProbe k m :: l' => (k, m) :: probes l'
  | _ :: l' => probes l'
  end.

Definition probe_events (tr : list (pystr * pystr)) : list event :=
  map (λ km, EProbe km.1 km.2) tr.

(** The three attribute writes of a successful probe (lines 198-200). *)
Definition binding_writes : list event :=
  [EAssign "active_google_key"; EAssign "active_google_model";
   EAssign "clients['google']"].

Definition bind_google (p : platform) (k m : pystr) : platform :=
  Platform (openai_key p) (llama_key p) (google_keys p) (claude_key p)
    (Some k) (Some m) (<[ "google" := GeminiModel k m ]> (clients p)).

(** First-success search over a list of pairs: the pairs probed, and the
    pair that succeeded if any. *)
Fixpoint search (w : world) (pairs : list (pystr * pystr))
    : list (pystr * pystr) * option (pystr * pystr) :=
  match pairs with
  | [] => ([], None)
  | (k, m) :: pairs' =>
      if probe w k m then ([(k, m)], Some (k, m))
      else let '(tr, r) := search w pairs' in ((k, m) :: tr, r)
  end.

(** The session in which [setup_google_client] runs during start-up, and
    that call. *)
Definition before_google (w : world) (getenv : environ) : sess :=
  snd (setup_claude_client w
         (snd (setup_openai_client w (Sess (init_fields getenv) [])))).

Definition google_resolution (w : world) (getenv : environ) : bool * sess :=
  setup_google_client w (before_google w getenv).

Definition google_unavailable (p : platform) : Prop :=
  clients p !! "google" = None ∧ active_google_key p = None ∧
  active_google_model p = None.

(** A Python failure text: the marker, then at most 120 code points. *)
Definition bounded_failure (o : pyobj) : Prop :=
  ∃ rest, o = PStr (cross_mark :: rest) ∧ (length rest ≤ 120)%nat.


(** Reply shape A: [choices[0]["message"]["content"]]. *)
Definition shape_message_content (v : pyobj) : option pyobj :=
  match v with
  | PDict kvs =>
      match dict_lookup (u "choices") kvs with
      | Some (PList (PDict c0 :: _)) =>
          match dict_lookup (u "message") c0 with
          | Some (PDict m) => dict_lookup (u "content") m
          | _ => None
          end
      | _ => None
      end
  | _ => None
  end.

(** Reply shape B: no message field, a flat [choices[0]["text"]]. *)
Definition shape_text_field (v : pyobj) : option pyobj :=
  match v with
  | PDict kvs =>
      match dict_lookup (u "choices") kvs with
      | Some (PList (PDict c0 :: _)) =>
          match dict_lookup (u "message") c0 with
          | None => dict_lookup (u "text") c0
          | Some _ => None
          end
      | _ => None
      end
  | _ => None
  end.

(** A call issued by [respond] that fails at run time. *)
Inductive call_fault (w : world) (p : platform) :
    provider → pystr → option pystr → Prop :=
| FaultOpenAI k prompt sys e :
    clients p !! "openai" = Some (OpenAIClient k) →
    openai_chat w k (u "gpt-4") (chat_messages prompt sys) = Raised e →
    call_fault w p POpenAI prompt sys
| FaultClaude k prompt sys e :
    clients p !! "claude" = Some (ClaudeClient k) →
    claude_create w k claude_model (sys_text sys) [user_msg prompt] = Raised e →
    call_fault w p PClaude prompt sys
| FaultGoogle k m prompt sys e :
    clients p !! "google" = Some (GeminiModel k m) →
    gemini_generate w k m (gemini_full_prompt prompt sys) = Raised e →
    call_fault w p PGoogle prompt sys
| FaultLlamaTransport k prompt sys e :
    llama_key p = Some k → k ≠ [] →
    llama_post w k (chat_messages prompt sys) = HttpRaised e →
    call_fault w p PLlama prompt sys
| FaultLlamaStatus k prompt sys status body :
    llama_key p = Some k → k ≠ [] →
    llama_post w k (chat_messages prompt sys) = HttpReply status body →
    status ≠ 200%Z → (100 ≤ status ≤ 999)%Z →
    call_fault w p PLlama prompt sys
| FaultLlamaJson k prompt sys e :
    llama_key p = Some k → k ≠ [] →
    llama_post w k (chat_messages prompt sys) = HttpReply 200 (BodyInvalid e) →
    call_fault w p PLlama prompt sys
| FaultLlamaShape k prompt sys v :
    llama_key p = Some k → k ≠ [] →
    llama_post w k (chat_messages prompt sys) = HttpReply 200 (BodyJson v) →
    shape_message_content v = None → shape_text_field v = None →
    call_fault w p PLlama prompt sys.

(** The provider an event is a [respond] call to. *)
Definition call_provider (e : event) : option provider :=
  match e with
  | EOpenAICall _ _ _ => Some POpenAI
  | EClaudeCall _ _ _ _ => Some PClaude
  | EGeminiCall _ _ _ => Some PGoogle
  | ELlamaPost _ _ => Some PLlama
  | _ => None
  end.

Definition is_assign (e : event) : bool :=
  match e with EAssign _ => true | _ => false end.

(** Number of occurrences of [x] in [l]. *)
Definition occ {A} `{EqDecision A} (x : A) (l : list A) : nat :=
  length (filter (λ y, y = x) l).

(** [m] reads the platform, may log calls, and assigns no attribute. *)
Definition runs_as {A} (m : M A) (p : platform) (a : A) (evs : list event) : Prop :=
  ∀ l, m (Sess p l) = (a, Sess p (l ++ evs)).

Definition readonly {A} (m : M A) : Prop :=
  ∀ p, ∃ a evs, runs_as m p a evs ∧ Forall (λ e, is_assign e = false) evs.

(** Each entry of [self.clients] holds the object its name says. *)
Definition clients_ok (p : platform) : Prop :=
  (∀ c, clients p !! "openai" = Some c → ∃ k, c = OpenAIClient k) ∧
  (∀ c, clients p !! "claude" = Some c → ∃ k, c = ClaudeClient k) ∧
  (∀ c, clients p !! "google" = Some c → ∃ k m, c = GeminiModel k m).

(** The four providers in display order. *)
Definition all_providers : list provider := [POpenAI; PClaude; PGoogle; PLlama].

(** The label of each provider in the [keys_status] dict. *)
Definition status_label (pr : provider) : string :=
  match pr with
  | POpenAI => "OpenAI GPT" | PLlama => "Meta Llama"
  | PGoogle => "Google Gemini" | PClaude => "Anthropic Claude"
  end.

(** A text that starts with the failure marker. *)
Definition marked (o : pyobj) : bool :=
  match o with PStr (c :: _) => N.eqb c cross_mark | _ => false end.

(** A call event uses the credential configured for its provider: the
    environment's key for OpenAI, Claude and Llama, and the resolved
    binding for Gemini. *)
Definition configured_credential (getenv : environ) (p : platform) (e : event) : Prop :=
  match e with
  | EOpenAICall k _ _ => getenv "OPENAI_API_KEY" = Some k
  | EClaudeCall k _ _ _ => getenv "CLAUDE_API_KEY" = Some k
  | EGeminiCall k m _ =>
      active_google_key p = Some k ∧ active_google_model p = Some m ∧
      In k (google_candidates getenv) ∧ In m model_names_to_try
  | ELlamaPost k _ => getenv "LLAMA_API_KEY" = Some k
  | _ => True
  end.

(** [m] run on platform [p] leaves it unchanged and logs only events
    satisfying [Q]. *)
Definition runs_with (Q : event → Prop) {A} (m : M A) (p : platform) : Prop :=
  ∃ a evs, runs_as m p a evs ∧ Forall Q evs.

(* ------------------------------------------------------------------ *)
(** ** Concrete scenarios *)

(** An environment from an association list of variables. *)
Definition env_of (vars : list (string * pystr)) : environ :=
  λ name, snd <$> List.find (λ kv, String.eqb (fst kv) name) vars.

(** A world in which every client can be built, the Gemini library is
    installed, no probe succeeds and every vendor call raises. *)
Definition w_all_fail : world := {|
  openai_ctor_ok := λ _, true;
  claude_ctor_ok := λ _, true;
  genai_importable := true;
  probe := λ _ _, false;
  openai_chat := λ _ _ _, Raised (u "Connection error.");
  claude_create := λ _ _ _ _, Raised (u "Error code: 529 - Overloaded");
  gemini_generate := λ _ _ _, Raised (u "404 models/gemini-pro is not found");
  llama_post := λ _ _, HttpReply 503 (BodyInvalid (u "Expecting value"))
|}.

(** The same world, where only [gemini-1.5-pro] answers, with key "k2",
    and every call succeeds; the Llama endpoint answers in shape B. *)
Definition w_k2 : world := {|
  openai_ctor_ok := λ _, true;
  claude_ctor_ok := λ _, true;
  genai_importable := true;
  probe := λ k m, pystr_eqb k (u "k2") && pystr_eqb m (u "gemini-1.5-pro");
  openai_chat := λ _ _ _, Returned (PStr (u "a"));
  claude_create := λ _ _ _ _, Returned (u "b");
  gemini_generate := λ _ _ t, Returned t;
  llama_post := λ _ _, HttpReply 200
    (BodyJson (PDict [(u "choices", PList [PDict [(u "text", PStr (u "d"))]])]))
|}.

(** A world whose Llama endpoint answers [{"choices": []}] with status 200. *)
Definition w_llama_empty : world := {|
  openai_ctor_ok := λ _, true;
  claude_ctor_ok := λ _, true;
  genai_importable := true;
  probe := λ _ _, false;
  openai_chat := λ _ _ _, Raised (u "Connection error.");
  claude_create := λ _ _ _ _, Raised (u "Error code: 529 - Overloaded");
  gemini_generate := λ _ _ _, Raised (u "404 models/gemini-pro is not found");
  llama_post := λ _ _, HttpReply 200 (BodyJson (PDict [(u "choices", PList [])]))
|}.

(** A world in which the OpenAI reply has [content = None]. *)
Definition w_openai_none : world := {|
  openai_ctor_ok := λ _, true;
  claude_ctor_ok := λ _, true;
  genai_importable := true;
  probe := λ _ _, false;
  openai_chat := λ _ _ _, Returned PNone;
  claude_create := λ _ _ _ _, Returned (u "b");
  gemini_generate := λ _ _ t, Returned t;
  llama_post := λ _ _, HttpRaised (u "Connection refused")
|}.

(** An OpenAI key and a Llama key. *)
Definition env_openai_llama : environ :=
  env_of [("OPENAI_API_KEY", u "o"); ("LLAMA_API_KEY", u "L")].

(** The OpenAI placeholder configured as the primary Google key. *)
Definition env_placeholder : environ :=
  env_of [("GOOGLE_API_KEY", openai_placeholder)].

(** The same Google key configured twice. *)
Definition env_dup : environ :=
  env_of [("GOOGLE_API_KEY", u "k"); ("GOOGLE_API_KEY_BACKUP", u "k")].

(** An empty primary key, two backups, and a Llama key only. *)
Definition env_backups : environ :=
  env_of [("GOOGLE_API_KEY", []); ("GOOGLE_API_KEY_BACKUP", u "k2");
          ("GOOGLE_API_KEY_BACKUP2", u "k3"); ("LLAMA_API_KEY", u "L")].

(** Nothing configured. *)
Definition env_empty : environ := env_of [].

(** The notion of an invalid credential of the specification: absent,
    empty, or a known placeholder. *)
Definition spec_invalid (c : option pystr) : Prop :=
  c = None ∨ c = Some [] ∨ c = Some openai_placeholder.

(** What [setup_openai_client] and [setup_claude_client] leave untouched. *)
Definition setup_frame (name : string) (s s' : sess) : Prop :=
  google_keys (plat s') = google_keys (plat s) ∧
  active_google_key (plat s') = active_google_key (plat s) ∧
  active_google_model (plat s') = active_google_model (plat s) ∧
  clients (plat s') !! "google" = clients (plat s) !! "google" ∧
  (clients_ok (plat s) → clients_ok (plat s')) ∧
  ∃ evs, log s' = log s ++ evs ∧ Forall (λ e, e = EAssign ("clients['" ++ name ++ "']")) evs.

(** Two replies carrying the same value [t], in shape A and in shape B. *)
Definition payload_message (t : pyobj) : pyobj :=
  PDict [(u "choices", PList [PDict [(u "message", PDict [(u "content", t)])]])].

Definition payload_text (t : pyobj) : pyobj :=
  PDict [(u "choices", PList [PDict [(u "text", t)]])].

(** The calls to the outside world that respond methods issued, in order. *)
Definition provider_calls (evs : list event) : list provider := omap call_provider evs.

(* ================================================================== *)
(** * Proofs *)

(* ------------------------------------------------------------------ *)
(** ** The resolution loop is a first-success search *)

Lemma search_app w l1 l2 :
  search w (l1 ++ l2) =
  match search w l1 with
  | (tr1, Some km) => (tr1, Some km)
  | (tr1, None) => let '(tr2, r2) := search w l2 in (tr1 ++ tr2, r2)
  end.
Proof.
  induction l1 as [|[k m] l1 IH]; simpl.
  - by destruct (search w l2).
  - destruct (probe w k m); [done|]. rewrite IH.
    destruct (search w l1) as [tr [km|]]; [done|]. by destruct (search w l2).
Qed.

Lemma try_models_search w key names s :
  try_models w key names s =
  match search w (map (λ m, (key, m)) names) with
  | (tr, Some (k, m)) =>
      (true, Sess (bind_google (plat s) k m) (log s ++ probe_events tr ++ binding_writes))
  | (tr, None) => (false, Sess (plat s) (log s ++ probe_events tr))
  end.
Proof.
  revert s. induction names as [|m names IH]; intros [p l]; simpl.
  - by rewrite app_nil_r.
  - unfold mbind, M_bind, emit, mret, M_ret. simpl.
    destruct (probe w key m).
    + unfold set_active_google_key, set_active_google_model, set_client,
        mbind, M_bind, emit, modify_plat, mret, M_ret; simpl.
      by rewrite <- !app_assoc.
    + rewrite IH. simpl.
      destruct (search w (map (λ m0, (key, m0)) names)) as [tr [[k' m']|]];
        by rewrite <- !app_assoc.
Qed.

Lemma nested_pairs_cons k ks names :
  nested_pairs (k :: ks) names = map (λ m, (k, m)) names ++ nested_pairs ks names.
Proof. done. Qed.

Lemma try_keys_search w keys s :
  try_keys w keys s =
  match search w (nested_pairs keys model_names_to_try) with
  | (tr, Some (k, m)) =>
      (true, Sess (bind_google (plat s) k m) (log s ++ probe_events tr ++ binding_writes))
  | (tr, None) => (false, Sess (plat s) (log s ++ probe_events tr))
  end.
Proof.
  revert s. induction keys as [|k ks IH]; intros s.
  - destruct s; simpl. by rewrite app_nil_r.
  - rewrite nested_pairs_cons, search_app. cbn [try_keys].
    unfold mbind, M_bind at 1. rewrite try_models_search.
    destruct (search w (map (λ m, (k, m)) model_names_to_try)) as [tr1 [[k1 m1]|]].
    + done.
    + rewrite IH. simpl.
      destruct (search w (nested_pairs ks model_names_to_try)) as [tr2 [[k2 m2]|]];
        simpl; unfold probe_events; by rewrite map_app, <- !app_assoc.
Qed.

Lemma startup_google_resolution w getenv :
  startup w getenv = snd (google_resolution w getenv).
Proof.
  unfold startup, google_resolution, before_google, setup_all_clients.
  unfold mbind, M_bind.
  destruct (setup_openai_client w _) as [b1 s1].
  destruct (setup_claude_client w s1) as [b2 s2] eqn:E2. simpl. rewrite E2. simpl.
  by destruct (setup_google_client w s2).
Qed.

Lemma setup_openai_frame w s : setup_frame "openai" s (snd (setup_openai_client w s)).
Proof.
  destruct s as [p l]. unfold setup_frame.
  unfold setup_openai_client, set_client, mbind, M_bind, get_plat, emit, modify_plat,
    mret, M_ret; simpl.
  destruct (openai_key p) as [k|]; simpl.
  2:{ split_and!; try done; exists []; split; [by rewrite app_nil_r|constructor]. }
  destruct (negb _ || _); simpl.
  { split_and!; try done; exists []; split; [by rewrite app_nil_r|constructor]. }
  destruct (openai_ctor_ok w k); simpl.
  2:{ split_and!; try done; exists []; split; [by rewrite app_nil_r|constructor]. }
  split_and!; try done.
  - by rewrite lookup_insert_ne.
  - unfold clients_ok. intros (Ho & Hc & Hg). simpl. split_and!; intros c.
    + rewrite lookup_insert_eq. intros [= <-]. eauto.
    + rewrite lookup_insert_ne by done. apply Hc.
    + rewrite lookup_insert_ne by done. apply Hg.
  - eexists. split; [done|]. by repeat constructor.
Qed.

Lemma setup_claude_frame w s : setup_frame "claude" s (snd (setup_claude_client w s)).
Proof.
  destruct s as [p l]. unfold setup_frame.
  unfold setup_claude_client, set_client, mbind, M_bind, get_plat, emit, modify_plat,
    mret, M_ret; simpl.
  destruct (claude_key p) as [k|]; simpl.
  2:{ split_and!; try done; exists []; split; [by rewrite app_nil_r|constructor]. }
  destruct (negb _); simpl.
  { split_and!; try done; exists []; split; [by rewrite app_nil_r|constructor]. }
  destruct (claude_ctor_ok w k); simpl.
  2:{ split_and!; try done; exists []; split; [by rewrite app_nil_r|constructor]. }
  split_and!; try done.
  - by rewrite lookup_insert_ne.
  - unfold clients_ok. intros (Ho & Hc & Hg). simpl. split_and!; intros c.
    + rewrite lookup_insert_ne by done. apply Ho.
    + rewrite lookup_insert_eq. intros [= <-]. eauto.
    + rewrite lookup_insert_ne by done. apply Hg.
  - eexists. split; [done|]. by repeat constructor.
Qed.

Lemma before_google_facts w getenv :
  let s := before_google w getenv in
  google_keys (plat s) = google_candidates getenv ∧ google_unavailable (plat s) ∧
  clients_ok (plat s) ∧
  Forall (λ e, e = EAssign "clients['openai']" ∨ e = EAssign "clients['claude']") (log s).
Proof.
  unfold before_google.
  set (s0 := Sess (init_fields getenv) []).
  destruct (setup_openai_frame w s0) as (K1 & A1 & M1 & G1 & C1 & evs1 & L1 & F1).
  set (s1 := snd (setup_openai_client w s0)) in *.
  destruct (setup_claude_frame w s1) as (K2 & A2 & M2 & G2 & C2 & evs2 & L2 & F2).
  simpl. unfold google_unavailable.
  rewrite K2, A2, M2, G2, K1, A1, M1, G1, L2, L1. simpl.
  split_and!; try done.
  - apply C2, C1. split_and!; intros c; simpl; by rewrite lookup_empty.
  - apply Forall_app; split; eapply Forall_impl; eauto; simpl; auto.
Qed.

Lemma google_resolution_search w getenv :
  google_resolution w getenv =
  let s := before_google w getenv in
  if genai_importable w then
    match search w (nested_pairs (google_candidates getenv) model_names_to_try) with
    | (tr, Some (k, m)) =>
        (true, Sess (bind_google (plat s) k m) (log s ++ probe_events tr ++ binding_writes))
    | (tr, None) => (false, Sess (plat s) (log s ++ probe_events tr))
    end
  else (false, s).
Proof.
  destruct (before_google_facts w getenv) as (Hkeys & _).
  unfold google_resolution, setup_google_client, mbind, M_bind, get_plat.
  cbv beta iota. rewrite Hkeys.
  destruct (google_candidates getenv) as [|k ks] eqn:Hc.
  - destruct (genai_importable w), (before_google w getenv); simpl;
      by rewrite ?app_nil_r.
  - destruct (genai_importable w); cbv beta iota delta [negb]; [|done].
    rewrite try_keys_search. done.
Qed.

Lemma probes_app l1 l2 : probes (l1 ++ l2) = probes l1 ++ probes l2.
Proof. induction l1 as [|[] l1 IH]; simpl; rewrite ?IH; done. Qed.

Lemma probes_probe_events tr : probes (probe_events tr) = tr.
Proof. induction tr as [|[k m] tr IH]; simpl; rewrite ?IH; done. Qed.

Lemma probes_before w getenv : probes (log (before_google w getenv)) = [].
Proof.
  destruct (before_google_facts w getenv) as (_ & _ & _ & HF).
  induction HF as [|e l [-> | ->] _ IH]; simpl; done.
Qed.

Lemma startup_probes w getenv :
  probes (log (startup w getenv)) =
  if genai_importable w
  then fst (search w (nested_pairs (google_candidates getenv) model_names_to_try))
  else [].
Proof.
  rewrite startup_google_resolution, google_resolution_search. simpl.
  destruct (genai_importable w); [|apply probes_before].
  destruct (search w _) as [tr [[k m]|]]; simpl;
    rewrite !probes_app, probes_before, probes_probe_events; simpl;
    by rewrite ?app_nil_r.
Qed.

Lemma search_prefix w l : fst (search w l) = take (length (fst (search w l))) l.
Proof.
  induction l as [|[k m] l IH]; simpl; [done|].
  destruct (probe w k m); [done|].
  destruct (search w l) as [tr r] eqn:E; simpl in *. by rewrite <- IH.
Qed.

Lemma search_all_fail w l :
  (∀ k m, In (k, m) l → probe w k m = false) → search w l = (l, None).
Proof.
  induction l as [|[k m] l IH]; intros H; simpl; [done|].
  rewrite H by (left; done). rewrite IH; [done|]. intros k' m' Hin. apply H. by right.
Qed.

Lemma search_first w l i k m :
  l !! i = Some (k, m) → probe w k m = true →
  (∀ j k' m', j < i → l !! j = Some (k', m') → probe w k' m' = false) →
  search w l = (take (S i) l, Some (k, m)).
Proof.
  revert i. induction l as [|[k0 m0] l IH]; intros i Hi Hp Hbefore; [done|].
  destruct i as [|i]; simpl in *.
  - simplify_eq. by rewrite Hp.
  - rewrite (Hbefore 0 k0 m0) by (done || lia).
    rewrite (IH i Hi Hp); [done|].
    intros j k' m' Hj Hl. apply (Hbefore (S j)); [lia|done].
Qed.

Lemma drop_falsy_spec l k : In k (drop_falsy l) ↔ In (Some k) l ∧ k ≠ [].
Proof.
  induction l as [|[[|c s]|] l IH]; simpl.
  - naive_solver.
  - rewrite IH. split; [naive_solver|]. intros [[H|H] Hk]; [congruence|auto].
  - rewrite IH. split; [intros [<-|H]; naive_solver|].
    intros [[H|H] Hk]; [inversion H; auto|auto].
  - rewrite IH. split; [naive_solver|]. intros [[H|H] Hk]; [congruence|auto].
Qed.

Lemma nested_pairs_in keys names k m :
  In (k, m) (nested_pairs keys names) → In k keys ∧ In m names.
Proof.
  unfold nested_pairs. rewrite in_flat_map. intros (k' & Hk' & Hin).
  apply in_map_iff in Hin as (m' & [= <- <-] & Hm). done.
Qed.

Lemma occ_app {A} `{EqDecision A} (x : A) l1 l2 : occ x (l1 ++ l2) = occ x l1 + occ x l2.
Proof. unfold occ. by rewrite filter_app, length_app. Qed.

Lemma occ_cons {A} `{EqDecision A} (x y : A) l :
  occ x (y :: l) = (if decide (y = x) then 1 else 0) + occ x l.
Proof. unfold occ. rewrite filter_cons. by case_decide. Qed.

Lemma occ_take {A} `{EqDecision A} (x : A) n l : occ x (take n l) ≤ occ x l.
Proof.
  revert n. induction l as [|y l IH]; intros [|n]; simpl; try (unfold occ; simpl; lia).
  rewrite !occ_cons. specialize (IH n). lia.
Qed.

Lemma occ_not_in {A} `{EqDecision A} (x : A) l : x ∉ l → occ x l = 0.
Proof.
  induction l as [|y l IH]; intros H; [done|].
  rewrite occ_cons, IH by set_solver. case_decide; [set_solver|done].
Qed.

Lemma occ_nodup {A} `{EqDecision A} (x : A) l : NoDup l → occ x l ≤ 1.
Proof.
  induction 1 as [|y l Hy Hl IH]; [unfold occ; simpl; lia|].
  rewrite occ_cons. case_decide; [subst; rewrite occ_not_in by done|]; lia.
Qed.

Lemma occ_nested_pairs keys names k m :
  occ (k, m) (nested_pairs keys names) = occ k keys * occ m names.
Proof.
  induction keys as [|k' ks IH]; [done|].
  rewrite nested_pairs_cons, occ_app, IH, occ_cons.
  assert (occ (k, m) (map (λ m', (k', m')) names) =
          (if decide (k' = k) then 1 else 0) * occ m names) as ->.
  { clear IH. induction names as [|m' ns IHn]; simpl; [unfold occ; simpl; lia|].
    rewrite !occ_cons, IHn. repeat case_decide; simplify_eq; lia. }
  lia.
Qed.

Lemma model_names_nodup : NoDup model_names_to_try.
Proof.
  apply (bool_decide_unpack (NoDup model_names_to_try)). vm_compute. exact I.
Qed.

(* ------------------------------------------------------------------ *)
(** ** C1: probing order *)

(** C1 (as stated, refuted): a credential that is invalid in the sense of
    the specification (absent, empty or the known placeholder) is never
    probed.  With the placeholder as primary Google key, it is probed. *)
Lemma resolver_probes_placeholder_key :
  ¬ (∀ w getenv k m,
       In (k, m) (probes (log (startup w getenv))) → ¬ spec_invalid (Some k)).
Proof.
  intros H.
  apply (H w_all_fail env_placeholder openai_placeholder (u "gemini-1.5-pro-latest")).
  - vm_compute. left. reflexivity.
  - right; right. reflexivity.
Qed.

(** C1 (amended): the probes performed at start-up follow the nested loop
    order (credentials outer, models inner, both in list order) and form a
    prefix of it; every probed credential is one of the three Google
    variables, present and non-empty; when no probe succeeds every pair is
    probed. *)
Theorem resolver_probe_order w getenv :
  let pairs := nested_pairs (google_candidates getenv) model_names_to_try in
  let tr := probes (log (startup w getenv)) in
  tr = take (length tr) pairs ∧
  (∀ k m, In (k, m) tr →
     k ≠ [] ∧ In (Some k) [getenv "GOOGLE_API_KEY"; getenv "GOOGLE_API_KEY_BACKUP";
                          getenv "GOOGLE_API_KEY_BACKUP2"]) ∧
  (genai_importable w = true → (∀ k m, In (k, m) pairs → probe w k m = false) →
   tr = pairs).
Proof.
  intros pairs tr. subst pairs tr. rewrite startup_probes.
  split_and!.
  - destruct (genai_importable w); [apply search_prefix|done].
  - intros k m Hin.
    assert (In (k, m) (nested_pairs (google_candidates getenv) model_names_to_try)) as Hp.
    { destruct (genai_importable w); [|done].
      rewrite search_prefix in Hin.
      rewrite <- (firstn_skipn (length (fst (search w (nested_pairs (google_candidates getenv)
        model_names_to_try))))). apply in_or_app. by left. }
    apply nested_pairs_in in Hp as [Hk _].
    apply drop_falsy_spec in Hk as [Hk Hne]. done.
  - intros Hg Hall. rewrite Hg. by rewrite search_all_fail.
Qed.

(** Witness for [resolver_probe_order]: with an empty primary key and two
    backups, all eight pairs of the backups are probed, in order. *)
Lemma resolver_probe_order_witness :
  probes (log (startup w_all_fail env_backups)) =
  nested_pairs [u "k2"; u "k3"] model_names_to_try.
Proof.
  destruct (resolver_probe_order w_all_fail env_backups) as (_ & _ & H).
  rewrite H; [reflexivity|reflexivity|].
  intros k m _. reflexivity.
Defined.

(* ------------------------------------------------------------------ *)
(** ** C2: the search stops at the first success *)

(** C2: if the pair at position [i] (0-based) of the nested order is the
    first one whose probe succeeds, exactly the first [i + 1] pairs are
    probed, in order, and that pair becomes the binding. *)
Theorem resolver_first_success w getenv i k m :
  genai_importable w = true →
  nested_pairs (google_candidates getenv) model_names_to_try !! i = Some (k, m) →
  probe w k m = true →
  (∀ j k' m', j < i →
     nested_pairs (google_candidates getenv) model_names_to_try !! j = Some (k', m') →
     probe w k' m' = false) →
  let s := startup w getenv in
  probes (log s) = take (S i) (nested_pairs (google_candidates getenv) model_names_to_try) ∧
  length (probes (log s)) = S i ∧
  fst (google_resolution w getenv) = true ∧
  active_google_key (plat s) = Some k ∧
  active_google_model (plat s) = Some m ∧
  clients (plat s) !! "google" = Some (GeminiModel k m).
Proof.
  intros Hg Hi Hp Hbefore s. subst s.
  pose proof (search_first w _ i k m Hi Hp Hbefore) as Hs.
  assert (i < length (nested_pairs (google_candidates getenv) model_names_to_try))
    by (eapply lookup_lt_Some; eauto).
  rewrite startup_probes, Hg, Hs. simpl fst.
  rewrite startup_google_resolution, google_resolution_search, Hg, Hs. simpl.
  split_and!; try done.
  - rewrite length_take. lia.
  - by rewrite lookup_insert_eq.
Qed.

(** Witness: keys "k2" then "k3", only ("k2", "gemini-1.5-pro") works:
    two probes, then the binding. *)
Lemma resolver_first_success_witness :
  probes (log (startup w_k2 env_backups)) =
    [(u "k2", u "gemini-1.5-pro-latest"); (u "k2", u "gemini-1.5-pro")] ∧
  active_google_model (plat (startup w_k2 env_backups)) = Some (u "gemini-1.5-pro").
Proof.
  destruct (resolver_first_success w_k2 env_backups 1 (u "k2") (u "gemini-1.5-pro"))
    as (H1 & _ & _ & _ & H5 & _).
  - reflexivity.
  - reflexivity.
  - reflexivity.
  - intros j k' m' Hj Hl. destruct j as [|j]; [|lia].
    vm_compute in Hl. injection Hl as <- <-. reflexivity.
  - split; [rewrite H1; reflexivity | exact H5].
Defined.

(* ------------------------------------------------------------------ *)
(** ** C3: exhaustion *)

(** C3: when every probe fails (in particular when there is no credential)
    the resolution returns [False] and leaves the Google provider without
    registry entry, active key or active model.  (The model has no
    exception: the method returns normally.) *)
Theorem resolver_exhaustion_unavailable w getenv :
  (∀ k m, In (k, m) (nested_pairs (google_candidates getenv) model_names_to_try) →
     probe w k m = false) →
  fst (google_resolution w getenv) = false ∧
  google_unavailable (plat (startup w getenv)).
Proof.
  intros Hall.
  destruct (before_google_facts w getenv) as (_ & Hu & _).
  rewrite startup_google_resolution, google_resolution_search.
  destruct (genai_importable w); simpl; [|done].
  rewrite search_all_fail by done. simpl. done.
Qed.

(** Witness: two backup keys, every probe fails; and no key at all. *)
Lemma resolver_exhaustion_unavailable_witness :
  fst (google_resolution w_all_fail env_backups) = false ∧
  google_unavailable (plat (startup w_all_fail env_backups)) ∧
  fst (google_resolution w_k2 env_empty) = false.
Proof.
  destruct (resolver_exhaustion_unavailable w_all_fail env_backups) as [H1 H2].
  { intros k m _. reflexivity. }
  destruct (resolver_exhaustion_unavailable w_k2 env_empty) as [H3 _].
  { intros k m []. }
  split_and!; [exact H1 | exact H2 | exact H3].
Defined.

(* ------------------------------------------------------------------ *)
(** ** C7: the Google credential list *)

(** C7 (as stated, refuted): the list is neither deduplicated nor cleared
    of the placeholder; a key configured twice has each of its pairs
    probed twice. *)
Lemma google_candidates_not_deduplicated :
  google_candidates env_dup = [u "k"; u "k"] ∧
  occ (u "k", u "gemini-1.5-pro-latest") (probes (log (startup w_all_fail env_dup))) = 2 ∧
  google_candidates env_placeholder = [openai_placeholder].
Proof. vm_compute. split_and!; reflexivity. Qed.

(** C7 (amended): the credential list is the values of GOOGLE_API_KEY,
    GOOGLE_API_KEY_BACKUP and GOOGLE_API_KEY_BACKUP2 in that order with the
    absent and empty ones removed, nothing else; a (credential, model) pair
    is probed at most as many times as the credential occurs in the list,
    hence at most once when the configured values are distinct. *)
Theorem google_candidates_spec w getenv :
  google_candidates getenv =
    drop_falsy [getenv "GOOGLE_API_KEY"; getenv "GOOGLE_API_KEY_BACKUP";
                getenv "GOOGLE_API_KEY_BACKUP2"] ∧
  (∀ k, In k (google_candidates getenv) ↔
     In (Some k) [getenv "GOOGLE_API_KEY"; getenv "GOOGLE_API_KEY_BACKUP";
                  getenv "GOOGLE_API_KEY_BACKUP2"] ∧ k ≠ []) ∧
  (∀ k m, occ (k, m) (probes (log (startup w getenv))) ≤ occ k (google_candidates getenv)) ∧
  (NoDup (google_candidates getenv) →
   ∀ k m, occ (k, m) (probes (log (startup w getenv))) ≤ 1).
Proof.
  assert (Hocc : ∀ k m, occ (k, m) (probes (log (startup w getenv)))
                        ≤ occ k (google_candidates getenv)).
  { intros k m. rewrite startup_probes.
    assert (occ m model_names_to_try ≤ 1) by apply occ_nodup, model_names_nodup.
    destruct (genai_importable w); [|unfold occ; simpl; lia].
    rewrite search_prefix. etransitivity; [apply occ_take|].
    rewrite occ_nested_pairs. nia. }
  split_and!.
  - done.
  - intros k. apply drop_falsy_spec.
  - exact Hocc.
  - intros Hnd k m. etransitivity; [apply Hocc|]. by apply occ_nodup.
Qed.

(** Witness: three distinct keys, all probes failing. *)
Lemma google_candidates_spec_witness :
  occ (u "k2", u "gemini-pro") (probes (log (startup w_all_fail env_backups))) ≤ 1.
Proof.
  destruct (google_candidates_spec w_all_fail env_backups) as (_ & _ & _ & H).
  apply H. apply (bool_decide_unpack (NoDup (google_candidates env_backups))).
  vm_compute. exact I.
Defined.

(* ------------------------------------------------------------------ *)
(** ** Parsing the Llama reply *)

Ltac parse_split :=
  match goal with
  | |- context [dict_lookup ?k ?kvs] => destruct (dict_lookup k kvs) eqn:?
  | |- context [match ?x with _ => _ end] => destruct x eqn:?
  end.

Ltac parse_split_hyp :=
  match goal with
  | H : context [match ?x with _ => _ end] |- _ => destruct x eqn:?
  | _ => parse_split
  end.

Lemma llama_parse_shapes v :
  (∀ t, shape_message_content v = Some t → llama_parse v = PyOk t) ∧
  (∀ t, shape_message_content v = None → shape_text_field v = Some t →
        llama_parse v = PyOk t) ∧
  (shape_message_content v = None → shape_text_field v = None →
   llama_parse v = PyOk (PStr unexpected_llama_format) ∨ ∃ e, llama_parse v = PyExc e).
Proof.
  unfold llama_parse, shape_message_content, shape_text_field.
  destruct v as [| | | s | l | kvs]; simpl; repeat (parse_split; simpl).
  all: split_and!; intros; simplify_eq; eauto.
Qed.

Lemma llama_parse_no_index_error v :
  llama_parse v ≠ PyExc (u "list index out of range").
Proof.
  unfold llama_parse.
  destruct v as [| | | s | l | kvs]; simpl; repeat (parse_split; simpl).
  all: intros H; try (vm_compute in H; congruence).
  all: repeat (match goal with x : pyobj |- _ => destruct x end; simpl in H;
               repeat (parse_split_hyp; simpl in *)).
  all: try (vm_compute in H; congruence).
  all: match goal with Hb : (_ <? _) = true |- _ => vm_compute in Hb; discriminate end.
Qed.

Lemma llama_parse_no_choices kvs :
  dict_lookup (u "choices") kvs = None ∨ dict_lookup (u "choices") kvs = Some (PList []) →
  llama_parse (PDict kvs) = PyOk (PStr unexpected_llama_format).
Proof.
  intros [H|H]; unfold llama_parse; simpl; rewrite H; done.
Qed.

Lemma get_llama_response_200 w prompt sys p l k v :
  llama_key p = Some k → k ≠ [] →
  llama_post w k (chat_messages prompt sys) = HttpReply 200 (BodyJson v) →
  get_llama_response w prompt sys (Sess p l) =
  (match llama_parse v with PyOk r => r | PyExc e => llama_error e end,
   Sess p (l ++ [ELlamaPost k (chat_messages prompt sys)])).
Proof.
  intros Hk Hne Hpost. destruct k as [|c k']; [done|].
  cbv beta iota delta [get_llama_response mbind M_bind get_plat emit mret M_ret plat log].
  rewrite Hk. cbv beta iota zeta. rewrite Hpost. cbv beta iota. rewrite Z.eqb_refl.
  by destruct (llama_parse v).
Qed.

(* ------------------------------------------------------------------ *)
(** ** Failure texts *)

Lemma bounded_failure_fixed s :
  (length (u s) ≤ 120)%nat → bounded_failure (PStr (xtext s)).
Proof. intros H. by exists (u s). Qed.

Lemma bounded_failure_truncated s e :
  (length (u s) ≤ 20)%nat → bounded_failure (PStr (xtext s ++ firstn 100 e)).
Proof.
  intros H. exists (u s ++ firstn 100 e). split; [done|].
  rewrite length_app, length_firstn. lia.
Qed.

Lemma py_str_int_3 z : (100 ≤ z ≤ 999)%Z → length (py_str_int z) = 3%nat.
Proof.
  intros Hz.
  assert (Hall : forallb (λ n, Nat.eqb (length (py_str_int (Z.of_nat n))) 3)
                   (seq 100 900) = true) by (vm_compute; reflexivity).
  rewrite forallb_forall in Hall.
  specialize (Hall (Z.to_nat z)). rewrite Z2Nat.id in Hall by lia.
  apply Nat.eqb_eq, Hall, in_seq. lia.
Qed.

Lemma llama_error_bounded e : bounded_failure (llama_error e).
Proof. unfold llama_error. apply bounded_failure_truncated. vm_compute. lia. Qed.

Lemma llama_parse_bounded v :
  shape_message_content v = None → shape_text_field v = None →
  bounded_failure (match llama_parse v with PyOk r => r | PyExc e => llama_error e end).
Proof.
  intros HA HB. destruct (llama_parse_shapes v) as (_ & _ & H3).
  destruct (H3 HA HB) as [-> | [e ->]].
  - apply bounded_failure_fixed. vm_compute. lia.
  - apply llama_error_bounded.
Qed.

(** C5: the Llama respond path accepts the reply shapes
    [choices[0].message.content] (A) and [choices[0].text] (B), A winning
    when both are present; a reply of status 200 in neither shape gives a
    failure-marked text; the same value in shape A or in shape B is
    extracted to the same result. *)
Theorem llama_two_shapes w prompt sys p l k v :
  llama_key p = Some k → k ≠ [] →
  llama_post w k (chat_messages prompt sys) = HttpReply 200 (BodyJson v) →
  let r := fst (get_llama_response w prompt sys (Sess p l)) in
  (∀ t, shape_message_content v = Some t → r = t) ∧
  (∀ t, shape_message_content v = None → shape_text_field v = Some t → r = t) ∧
  (shape_message_content v = None → shape_text_field v = None → bounded_failure r) ∧
  (∀ t, llama_parse (payload_message t) = PyOk t ∧ llama_parse (payload_text t) = PyOk t).
Proof.
  intros Hk Hne Hpost r. subst r.
  rewrite (get_llama_response_200 w prompt sys p l k v Hk Hne Hpost). simpl.
  destruct (llama_parse_shapes v) as (H1 & H2 & _).
  split_and!.
  - intros t Ht. by rewrite (H1 t Ht).
  - intros t HA HB. by rewrite (H2 t HA HB).
  - apply llama_parse_bounded.
  - intros t. split.
    + apply (proj1 (llama_parse_shapes (payload_message t))). done.
    + apply (proj1 (proj2 (llama_parse_shapes (payload_text t)))); done.
Qed.

Lemma llama_two_shapes_witness :
  fst (get_llama_response w_k2 (u "hi") None (Sess (plat (startup w_k2 env_backups)) []))
  = PStr (u "d").
Proof.
  pose proof (llama_two_shapes w_k2 (u "hi") None (plat (startup w_k2 env_backups)) []
    (u "L") (PDict [(u "choices", PList [PDict [(u "text", PStr (u "d"))]])])
    ltac:(vm_compute; reflexivity) ltac:(discriminate) ltac:(reflexivity)) as (_ & H2 & _).
  apply H2; reflexivity.
Defined.

(** C10: on a status-200 reply whose JSON object has no ["choices"] key or
    an empty ["choices"] list, the Llama respond path returns the
    unexpected-format text; and the parser never fails with the
    out-of-range error of [choices[0]]. *)
Theorem llama_empty_choices_guard w prompt sys p l k kvs :
  llama_key p = Some k → k ≠ [] →
  llama_post w k (chat_messages prompt sys) = HttpReply 200 (BodyJson (PDict kvs)) →
  dict_lookup (u "choices") kvs = None ∨ dict_lookup (u "choices") kvs = Some (PList []) →
  fst (get_llama_response w prompt sys (Sess p l)) = PStr unexpected_llama_format ∧
  ∀ v, llama_parse v ≠ PyExc (u "list index out of range").
Proof.
  intros Hk Hne Hpost Hch. split.
  - rewrite (get_llama_response_200 w prompt sys p l k _ Hk Hne Hpost). simpl.
    by rewrite llama_parse_no_choices.
  - apply llama_parse_no_index_error.
Qed.

Lemma llama_empty_choices_guard_witness :
  fst (get_llama_response w_llama_empty (u "hi") None
         (Sess (plat (startup w_llama_empty env_backups)) []))
  = PStr unexpected_llama_format.
Proof.
  apply (proj1 (llama_empty_choices_guard w_llama_empty (u "hi") None
    (plat (startup w_llama_empty env_backups)) [] (u "L") [(u "choices", PList [])]
    ltac:(vm_compute; reflexivity) ltac:(discriminate) ltac:(reflexivity)
    ltac:(right; reflexivity))).
Defined.

(* ------------------------------------------------------------------ *)
(** ** [respond] on an unavailable provider and on a failing call *)

Ltac unfold_m :=
  cbv beta iota zeta delta [mbind M_bind get_plat emit mret M_ret plat log].

Lemma respond_unavailable w pr prompt sys p l :
  available p pr = false →
  respond w pr prompt sys (Sess p l) =
  (PStr (xtext match pr with
               | POpenAI => " OpenAI not available"
               | PClaude => " Claude not available"
               | PGoogle => " Google not available"
               | PLlama => " Llama not available"
               end), Sess p l).
Proof.
  intros H. destruct pr; simpl in H.
  - apply bool_decide_eq_false, eq_None_not_Some in H.
    unfold respond, get_openai_response. unfold_m. by rewrite H.
  - apply bool_decide_eq_false, eq_None_not_Some in H.
    unfold respond, get_claude_response. unfold_m. by rewrite H.
  - apply bool_decide_eq_false, eq_None_not_Some in H.
    unfold respond, get_google_response. unfold_m. by rewrite H.
  - unfold respond, get_llama_response. unfold_m.
    destruct (llama_key p) as [[|c k]|]; done.
Qed.

Lemma respond_fault_text w pr prompt sys p l :
  call_fault w p pr prompt sys →
  ∃ s e, fst (respond w pr prompt sys (Sess p l)) = PStr (xtext s ++ firstn 100 e) ∧
         (length (u s) ≤ 20)%nat
  ∨ fst (respond w pr prompt sys (Sess p l)) =
      PStr (xtext " Claude temporarily overloaded - try again in a moment")
  ∨ fst (respond w pr prompt sys (Sess p l)) = PStr unexpected_llama_format
  ∨ ∃ status, fst (respond w pr prompt sys (Sess p l)) =
                PStr (xtext " Llama API Error: " ++ py_str_int status) ∧
              (100 ≤ status ≤ 999)%Z.
Proof.
  intros Hf. destruct Hf as [k prompt sys e Hc He|k prompt sys e Hc He
      |k m prompt sys e Hc He|k prompt sys e Hk Hne Hp|k prompt sys status body Hk Hne Hp Hs Hr
      |k prompt sys e Hk Hne Hp|k prompt sys v Hk Hne Hp HA HB].
  - exists " OpenAI Error: ", e. left. split; [|vm_compute; lia].
    unfold respond, get_openai_response. unfold_m. rewrite Hc. cbv beta iota zeta.
    by rewrite He.
  - unfold respond, get_claude_response. unfold_m. rewrite Hc. cbv beta iota zeta.
    rewrite He. destruct (py_str_in _ _).
    + exists "", []. right. left. done.
    + exists " Claude Error: ", e. left. split; [done|vm_compute; lia].
  - exists " Google Error: ", e. left. split; [|vm_compute; lia].
    unfold respond, get_google_response. unfold_m. rewrite Hc. cbv beta iota zeta.
    by rewrite He.
  - exists " Llama Error: ", e. left. split; [|vm_compute; lia].
    destruct k as [|c k]; [done|].
    unfold respond, get_llama_response. unfold_m. rewrite Hk. cbv beta iota zeta.
    by rewrite Hp.
  - exists "", []. right. right. right. exists status. split; [|done].
    destruct k as [|c k]; [done|].
    unfold respond, get_llama_response. unfold_m. rewrite Hk. cbv beta iota zeta.
    rewrite Hp. cbv beta iota. apply Z.eqb_neq in Hs. by rewrite Hs.
  - exists " Llama Error: ", e. left. split; [|vm_compute; lia].
    destruct k as [|c k]; [done|].
    unfold respond, get_llama_response. unfold_m. rewrite Hk. cbv beta iota zeta.
    rewrite Hp. cbv beta iota. by rewrite Z.eqb_refl.
  - unfold respond. rewrite (get_llama_response_200 w prompt sys p l k v Hk Hne Hp).
    simpl. destruct (llama_parse_shapes v) as (_ & _ & H3).
    destruct (H3 HA HB) as [-> | [e ->]].
    + exists "", []. right. right. left. done.
    + exists " Llama Error: ", e. left. split; [done|vm_compute; lia].
Qed.

(** C4: [respond] returns a text in every case (every call sits in a
    [try ... except Exception]); on an unavailable provider it returns at
    once, without any call or state change, a text starting with the
    failure marker; and a failing call (raised exception, non-200 status,
    invalid JSON, a reply of neither known shape) gives a failure-marked
    text whose diagnostic is cut to 100 code points, at most 120 in all. *)
Theorem respond_failure_marked w pr prompt sys s :
  (available (plat s) pr = false →
   bounded_failure (fst (respond w pr prompt sys s)) ∧ snd (respond w pr prompt sys s) = s) ∧
  (call_fault w (plat s) pr prompt sys → bounded_failure (fst (respond w pr prompt sys s))).
Proof.
  destruct s as [p l]. split.
  - intros H. rewrite (respond_unavailable w pr prompt sys p l H). split; [|done].
    apply bounded_failure_fixed. destruct pr; vm_compute; lia.
  - intros H.
    destruct (respond_fault_text w pr prompt sys p l H)
      as (s & e & [[-> Hs] | [-> | [-> | (status & -> & Hst)]]]).
    + by apply bounded_failure_truncated.
    + apply bounded_failure_fixed. vm_compute. lia.
    + apply bounded_failure_fixed. vm_compute. lia.
    + exists (u " Llama API Error: " ++ py_str_int status). split; [done|].
      rewrite length_app, py_str_int_3 by done. vm_compute. lia.
Qed.

Lemma respond_failure_marked_witness :
  bounded_failure (fst (respond w_all_fail PLlama (u "hi") None
                          (startup w_all_fail env_backups))).
Proof.
  apply (proj2 (respond_failure_marked w_all_fail PLlama (u "hi") None
                  (startup w_all_fail env_backups))).
  apply (FaultLlamaStatus w_all_fail _ (u "L") (u "hi") None 503
           (BodyInvalid (u "Expecting value"))).
  - vm_compute. reflexivity.
  - discriminate.
  - reflexivity.
  - discriminate.
  - lia.
Defined.

(* ------------------------------------------------------------------ *)
(** ** The prompt sent to Gemini *)

Lemma get_google_response_call w prompt sys p l k m :
  clients p !! "google" = Some (GeminiModel k m) →
  snd (get_google_response w prompt sys (Sess p l)) =
  Sess p (l ++ [EGeminiCall k m (gemini_full_prompt prompt sys)]).
Proof.
  intros Hc. unfold get_google_response. unfold_m. rewrite Hc. cbv beta iota zeta.
  by destruct (gemini_generate w k m (gemini_full_prompt prompt sys)).
Qed.

(** C9: the Google respond path issues exactly one call, whose single text
    is [Instructions: <system>], a blank line, then [User: <prompt>] when
    the system instruction is a non-empty string, and the prompt unchanged
    when it is absent or empty. *)
Theorem google_prompt_prefix w prompt sys s k m :
  clients (plat s) !! "google" = Some (GeminiModel k m) →
  snd (get_google_response w prompt sys s) =
    Sess (plat s) (log s ++ [EGeminiCall k m (gemini_full_prompt prompt sys)]) ∧
  (∀ i, sys = Some i → i ≠ [] →
        gemini_full_prompt prompt sys =
        u "Instructions: " ++ i ++ [10%N; 10%N] ++ u "User: " ++ prompt) ∧
  (sys = None ∨ sys = Some [] → gemini_full_prompt prompt sys = prompt).
Proof.
  intros Hc. destruct s as [p l]. split_and!.
  - by apply get_google_response_call.
  - intros i -> Hi. destruct i as [|c i]; [done|]. done.
  - by intros [-> | ->].
Qed.

Lemma google_prompt_prefix_witness :
  snd (get_google_response w_k2 (u "Q") (Some (u "S")) (startup w_k2 env_backups)) =
  Sess (plat (startup w_k2 env_backups))
    (log (startup w_k2 env_backups) ++
     [EGeminiCall (u "k2") (u "gemini-1.5-pro")
        (u "Instructions: S" ++ [10%N; 10%N] ++ u "User: Q")]).
Proof.
  apply (google_prompt_prefix w_k2 (u "Q") (Some (u "S")) (startup w_k2 env_backups)
           (u "k2") (u "gemini-1.5-pro")).
  vm_compute. reflexivity.
Defined.

(* ------------------------------------------------------------------ *)
(** ** Operations after start-up assign no attribute *)

Lemma readonly_ret {A} (a : A) : readonly (mret a).
Proof. intros p. exists a, []. split; [|constructor]. intros l. by rewrite app_nil_r. Qed.

Lemma readonly_bind {A B} (m : M A) (f : A → M B) :
  readonly m → (∀ a, readonly (f a)) → readonly (m ≫= f).
Proof.
  intros Hm Hf p. destruct (Hm p) as (a & evs1 & R1 & F1).
  destruct (Hf a p) as (b & evs2 & R2 & F2).
  exists b, (evs1 ++ evs2). split; [|by apply Forall_app].
  intros l. unfold mbind, M_bind. rewrite R1, R2. by rewrite app_assoc.
Qed.

Lemma readonly_get : readonly get_plat.
Proof. intros p. exists p, []. split; [|constructor]. intros l. by rewrite app_nil_r. Qed.

Lemma readonly_emit e : is_assign e = false → readonly (emit e).
Proof. intros He p. exists tt, [e]. split; [done|by constructor]. Qed.

Lemma respond_runs w pr prompt sys p :
  runs_as (respond w pr prompt sys) p (fst (respond w pr prompt sys (Sess p [])))
    (log (snd (respond w pr prompt sys (Sess p [])))).
Proof.
  intros l. destruct pr;
    unfold respond, get_openai_response, get_claude_response, get_google_response,
      get_llama_response; unfold_m; repeat case_match; cbn [fst snd] in *; simplify_eq;
    simpl; rewrite ?app_nil_r; reflexivity.
Qed.

Ltac respond_cases :=
  unfold respond, available, get_openai_response, get_claude_response,
    get_google_response, get_llama_response; unfold_m; repeat case_match;
  cbn [fst snd] in *; simplify_eq; simpl.

Lemma respond_events w pr prompt sys p :
  Forall (λ e, is_assign e = false) (log (snd (respond w pr prompt sys (Sess p [])))) ∧
  (clients_ok p →
   provider_calls (log (snd (respond w pr prompt sys (Sess p [])))) =
   if available p pr then [pr] else []).
Proof.
  split.
  - destruct pr; respond_cases; repeat constructor.
  - intros (Ho & Hc & Hg). destruct pr; respond_cases; try done.
    all: try match goal with
         | H : clients _ !! _ = Some _ |- _ =>
             first [ destruct (Ho _ H) | destruct (Hc _ H) | destruct (Hg _ H) as (? & ? & ?)];
             discriminate
         end.
    all: first [ destruct (Ho _ eq_refl) | destruct (Hc _ eq_refl)
               | destruct (Hg _ eq_refl) as (? & ? & ?) ]; discriminate.
Qed.

Lemma respond_readonly w pr prompt sys : readonly (respond w pr prompt sys).
Proof.
  intros p. eexists _, _. split; [apply respond_runs|apply respond_events].
Qed.

Lemma run_models_runs w prompt sys models p :
  ∃ res evs, runs_as (run_models w prompt sys models) p res evs ∧
    Forall (λ e, is_assign e = false) evs ∧
    map fst res = map fst models ∧
    map snd res = map (λ mp, fst (respond w mp.2 prompt sys (Sess p []))) models ∧
    (clients_ok p → provider_calls evs = List.filter (available p) (map snd models)).
Proof.
  induction models as [|[name pr] models IH].
  - exists [], []. split_and!; try done. intros l. by rewrite app_nil_r.
  - destruct IH as (res & evs & R & F & H1 & H2 & H3).
    destruct (respond_events w pr prompt sys p) as [F0 C0].
    exists ((name, fst (respond w pr prompt sys (Sess p []))) :: res),
      (log (snd (respond w pr prompt sys (Sess p []))) ++ evs).
    split_and!.
    + intros l. cbn [run_models]. unfold mbind, M_bind at 1.
      rewrite respond_runs. unfold mbind, M_bind. rewrite R.
      unfold mret, M_ret. by rewrite app_assoc.
    + by apply Forall_app.
    + simpl. by f_equal.
    + simpl. by f_equal.
    + intros Hok. unfold provider_calls in *. rewrite omap_app, C0, H3 by done.
      simpl. by destruct (available p pr).
Qed.

Lemma run_tests_readonly w models : readonly (run_tests w models).
Proof.
  induction models as [|[name pr] models IH]; cbn [run_tests].
  - apply readonly_ret.
  - apply readonly_bind; [apply respond_readonly|intros result].
    destruct (py_startswith_mark result).
    + apply readonly_bind; [apply IH|intros; apply readonly_ret].
    + apply readonly_ret.
Qed.

Lemma run_ops_readonly w ops : readonly (run_ops w ops).
Proof.
  induction ops as [|o ops IH]; cbn [run_ops].
  - apply readonly_ret.
  - apply readonly_bind; [|intros; apply IH].
    destruct o; cbn [run_op]; (apply readonly_bind; [|intros; apply readonly_ret]).
    + apply respond_readonly.
    + intros p. destruct (run_models_runs w prompt sys comparison_models p)
        as (res & evs & R & F & _). eauto.
    + apply run_tests_readonly.
Qed.

Lemma readonly_snd {A} (m : M A) s :
  readonly m →
  plat (snd (m s)) = plat s ∧
  ∃ evs, log (snd (m s)) = log s ++ evs ∧ Forall (λ e, is_assign e = false) evs.
Proof.
  intros Hm. destruct s as [p l]. destruct (Hm p) as (a & evs & R & F).
  rewrite (R l). simpl. split; [done|eauto].
Qed.

(* ------------------------------------------------------------------ *)
(** ** The platform after start-up *)

Lemma startup_cases w getenv :
  let b := before_google w getenv in
  (∃ k m tr, startup w getenv =
     Sess (bind_google (plat b) k m) (log b ++ probe_events tr ++ binding_writes)) ∨
  (∃ tr, startup w getenv = Sess (plat b) (log b ++ probe_events tr)).
Proof.
  simpl. rewrite startup_google_resolution, google_resolution_search. simpl.
  destruct (genai_importable w).
  - destruct (search w _) as [tr [[k m]|]]; [left|right]; eauto.
  - right. exists []. destruct (before_google w getenv); simpl. by rewrite app_nil_r.
Qed.

Lemma bind_google_clients_ok p k m : clients_ok p → clients_ok (bind_google p k m).
Proof.
  intros (Ho & Hc & Hg). split_and!; intros c; simpl.
  - rewrite lookup_insert_ne by done. apply Ho.
  - rewrite lookup_insert_ne by done. apply Hc.
  - rewrite lookup_insert_eq. intros [= <-]. eauto.
Qed.

Lemma startup_clients_ok w getenv : clients_ok (plat (startup w getenv)).
Proof.
  destruct (before_google_facts w getenv) as (_ & _ & Hok & _).
  destruct (startup_cases w getenv) as [(k & m & tr & ->)|(tr & ->)]; simpl.
  - by apply bind_google_clients_ok.
  - done.
Qed.

Lemma occ_probe_events a tr : occ (EAssign a) (probe_events tr) = 0.
Proof.
  apply occ_not_in. intros Hin. apply list_elem_of_In, in_map_iff in Hin.
  by destruct Hin as ([k m] & ? & _).
Qed.

Lemma occ_before_google w getenv a :
  a ≠ "clients['openai']" → a ≠ "clients['claude']" →
  occ (EAssign a) (log (before_google w getenv)) = 0.
Proof.
  intros Ho Hc. destruct (before_google_facts w getenv) as (_ & _ & _ & HF).
  apply occ_not_in. intros Hin.
  rewrite Forall_forall in HF. destruct (HF _ Hin) as [[= ?]|[= ?]]; auto.
Qed.

Lemma binding_writes_nodup : NoDup binding_writes.
Proof. apply (bool_decide_unpack (NoDup binding_writes)). vm_compute. exact I. Qed.

Lemma startup_occ w getenv a :
  a ≠ "clients['openai']" → a ≠ "clients['claude']" →
  (occ (EAssign a) (log (startup w getenv)) ≤ 1)%nat.
Proof.
  intros Ho Hc.
  destruct (startup_cases w getenv) as [(k & m & tr & ->)|(tr & ->)]; simpl;
    rewrite !occ_app, occ_probe_events, occ_before_google by done.
  - pose proof (occ_nodup (EAssign a) _ binding_writes_nodup). lia.
  - lia.
Qed.

(** C8: after start-up, the Google entry of [self.clients] is present
    exactly when [active_google_key] and [active_google_model] are both
    set; start-up assigns each of these three at most once (after the
    initialisation of [__init__]); and any sequence of later operations
    ([respond], [compare_all_models_enhanced], [run_enhanced_4model_test])
    leaves the platform unchanged and assigns no attribute. *)
Theorem binding_invariant w getenv ops :
  let s0 := startup w getenv in
  let s1 := snd (run_ops w ops s0) in
  (is_Some (clients (plat s0) !! "google") ↔
     is_Some (active_google_key (plat s0)) ∧ is_Some (active_google_model (plat s0))) ∧
  (occ (EAssign "active_google_key") (log s0) ≤ 1)%nat ∧
  (occ (EAssign "active_google_model") (log s0) ≤ 1)%nat ∧
  (occ (EAssign "clients['google']") (log s0) ≤ 1)%nat ∧
  plat s1 = plat s0 ∧
  ∃ evs, log s1 = log s0 ++ evs ∧ Forall (λ e, is_assign e = false) evs.
Proof.
  intros s0 s1.
  destruct (readonly_snd (run_ops w ops) s0 (run_ops_readonly w ops)) as (Hp & Hl).
  split_and!; [| apply startup_occ; done .. | exact Hp | exact Hl].
  destruct (before_google_facts w getenv) as (_ & (Hg & Hk & Hm) & _).
  subst s0 s1.
  destruct (startup_cases w getenv) as [(k & m & tr & ->)|(tr & ->)]; simpl.
  - rewrite lookup_insert_eq. split; [intros _; split; eexists; done|eauto].
  - rewrite Hg, Hk, Hm. split; [intros [? ?]; discriminate|intros [[? ?] _]; discriminate].
Qed.

Lemma respond_fst w pr prompt sys p l :
  fst (respond w pr prompt sys (Sess p l)) = fst (respond w pr prompt sys (Sess p [])).
Proof. by rewrite (respond_runs w pr prompt sys p l). Qed.

Lemma compare_runs w prompt sys s :
  clients_ok (plat s) →
  let res := fst (compare_all_models_enhanced w prompt sys s) in
  let s' := snd (compare_all_models_enhanced w prompt sys s) in
  map fst res = map fst comparison_models ∧
  map snd res = map (λ pr, fst (respond w pr prompt sys s)) [POpenAI; PClaude; PGoogle; PLlama] ∧
  plat s' = plat s ∧
  ∃ evs, log s' = log s ++ evs ∧
    provider_calls evs = List.filter (available (plat s)) [POpenAI; PClaude; PGoogle; PLlama].
Proof.
  destruct s as [p l]. cbv zeta. cbn [plat log]. intros Hok.
  destruct (run_models_runs w prompt sys comparison_models p)
    as (r & evs & R & _ & H1 & H2 & H3).
  unfold compare_all_models_enhanced. rewrite (R l). cbn [fst snd plat log]. split_and!.
  - exact H1.
  - rewrite H2. unfold comparison_models. cbn [map fst snd].
    by rewrite !(respond_fst _ _ _ _ _ l).
  - done.
  - exists evs. split; [done|]. by apply H3.
Qed.

(** C6 (as the code has it): on the platform after start-up and any
    earlier operations, [compare_all_models_enhanced] calls [respond] on
    all four providers in the fixed order OpenAI, Claude, Google, Llama and
    returns all four labels, each with its [respond] result (the
    "not available" text for an unavailable provider); the outside calls
    issued are exactly those to the available providers, in that order,
    whatever earlier calls returned; the platform is unchanged. *)
Theorem compare_calls_every_provider w getenv ops prompt sys :
  let s := snd (run_ops w ops (startup w getenv)) in
  let res := fst (compare_all_models_enhanced w prompt sys s) in
  let s' := snd (compare_all_models_enhanced w prompt sys s) in
  map fst res = map fst comparison_models ∧
  map snd res = map (λ pr, fst (respond w pr prompt sys s)) [POpenAI; PClaude; PGoogle; PLlama] ∧
  plat s' = plat s ∧
  ∃ evs, log s' = log s ++ evs ∧
    provider_calls evs = List.filter (available (plat s)) [POpenAI; PClaude; PGoogle; PLlama].
Proof.
  intros s. apply compare_runs. subst s.
  destruct (readonly_snd (run_ops w ops) (startup w getenv) (run_ops_readonly w ops))
    as (-> & _).
  apply startup_clients_ok.
Qed.

(** C6: the returned mapping does not hold only the available providers'
    labels: with nothing configured, no provider is available and the
    mapping still has four entries. *)
Lemma compare_keeps_unavailable_labels :
  ¬ (∀ w getenv prompt sys,
       map fst (fst (compare_all_models_enhanced w prompt sys (startup w getenv))) =
       map fst (List.filter (λ mp, available (plat (startup w getenv)) mp.2)
                  comparison_models)).
Proof.
  intros H. specialize (H w_all_fail env_empty [] None). vm_compute in H. discriminate.
Qed.

(* ------------------------------------------------------------------ *)
(** ** Client entries after start-up *)

Lemma setup_openai_effect w s :
  claude_key (plat (snd (setup_openai_client w s))) = claude_key (plat s) ∧
  clients (plat (snd (setup_openai_client w s))) =
  match openai_key (plat s) with
  | Some k =>
      if negb (truthy (Some k)) || pystr_eqb k openai_placeholder then clients (plat s)
      else if openai_ctor_ok w k then <["openai" := OpenAIClient k]> (clients (plat s))
      else clients (plat s)
  | None => clients (plat s)
  end.
Proof.
  destruct s as [p l].
  unfold setup_openai_client, set_client, mbind, M_bind, get_plat, emit, modify_plat,
    mret, M_ret; simpl.
  destruct (openai_key p) as [k|]; simpl; [|done].
  destruct (negb _ || _); simpl; [done|].
  by destruct (openai_ctor_ok w k).
Qed.

Lemma setup_claude_effect w s :
  clients (plat (snd (setup_claude_client w s))) =
  match claude_key (plat s) with
  | Some k =>
      if negb (truthy (Some k)) then clients (plat s)
      else if claude_ctor_ok w k then <["claude" := ClaudeClient k]> (clients (plat s))
      else clients (plat s)
  | None => clients (plat s)
  end.
Proof.
  destruct s as [p l].
  unfold setup_claude_client, set_client, mbind, M_bind, get_plat, emit, modify_plat,
    mret, M_ret; simpl.
  destruct (claude_key p) as [k|]; simpl; [|done].
  destruct (negb _); simpl; [done|].
  by destruct (claude_ctor_ok w k).
Qed.

Lemma before_google_openai w getenv :
  clients (plat (before_google w getenv)) !! "openai" =
  match getenv "OPENAI_API_KEY" with
  | Some k =>
      if negb (truthy (Some k)) || pystr_eqb k openai_placeholder then None
      else if openai_ctor_ok w k then Some (OpenAIClient k) else None
  | None => None
  end.
Proof.
  unfold before_google. rewrite setup_claude_effect.
  assert (E : clients (plat (snd (setup_openai_client w (Sess (init_fields getenv) []))))
              !! "openai" =
              match getenv "OPENAI_API_KEY" with
              | Some k =>
                  if negb (truthy (Some k)) || pystr_eqb k openai_placeholder then None
                  else if openai_ctor_ok w k then Some (OpenAIClient k) else None
              | None => None
              end).
  { rewrite (proj2 (setup_openai_effect w _)). cbn [plat openai_key init_fields clients].
    destruct (getenv "OPENAI_API_KEY") as [k|]; [|done].
    destruct (negb _ || _); [done|].
    destruct (openai_ctor_ok w k); [by rewrite lookup_insert_eq|done]. }
  destruct (claude_key _) as [k|]; [|exact E].
  destruct (negb _); [exact E|].
  destruct (claude_ctor_ok w k); [|exact E].
  rewrite lookup_insert_ne by done. exact E.
Qed.

Lemma before_google_claude w getenv :
  clients (plat (before_google w getenv)) !! "claude" =
  match getenv "CLAUDE_API_KEY" with
  | Some k =>
      if negb (truthy (Some k)) then None
      else if claude_ctor_ok w k then Some (ClaudeClient k) else None
  | None => None
  end.
Proof.
  unfold before_google. rewrite setup_claude_effect.
  rewrite (proj1 (setup_openai_effect w _)).
  assert (E : clients (plat (snd (setup_openai_client w (Sess (init_fields getenv) []))))
              !! "claude" = None).
  { rewrite (proj2 (setup_openai_effect w _)). cbn [plat openai_key init_fields clients].
    destruct (getenv "OPENAI_API_KEY") as [k|]; [|done].
    destruct (negb _ || _); [done|].
    destruct (openai_ctor_ok w k); [by rewrite lookup_insert_ne|done]. }
  cbn [plat claude_key init_fields].
  destruct (getenv "CLAUDE_API_KEY") as [k|]; [|exact E].
  destruct (negb _); [exact E|].
  destruct (claude_ctor_ok w k); [by rewrite lookup_insert_eq|exact E].
Qed.

Lemma startup_lookup_ne w getenv name :
  name ≠ "google" →
  clients (plat (startup w getenv)) !! name = clients (plat (before_google w getenv)) !! name.
Proof.
  intros Hn.
  destruct (startup_cases w getenv) as [(k & m & tr & ->)|(tr & ->)]; simpl; [|done].
  by rewrite lookup_insert_ne.
Qed.

Lemma search_some w l tr k m :
  search w l = (tr, Some (k, m)) → In (k, m) l ∧ probe w k m = true.
Proof.
  revert tr. induction l as [|[k0 m0] l IH]; intros tr; simpl; [done|].
  destruct (probe w k0 m0) eqn:Hp.
  - intros [= _ <- <-]. auto.
  - destruct (search w l) as [tr' r] eqn:E. intros [= _ ->].
    destruct (IH tr' eq_refl). auto.
Qed.

Lemma search_none w l tr :
  search w l = (tr, None) → ∀ k m, In (k, m) l → probe w k m = false.
Proof.
  revert tr. induction l as [|[k0 m0] l IH]; intros tr; simpl; [done|].
  destruct (probe w k0 m0) eqn:Hp; [done|].
  destruct (search w l) as [tr' r] eqn:E. intros [= _ ->] k m [[= <- <-]|Hin]; eauto.
Qed.

(** The platform after start-up, by the outcome of the resolution loop. *)
Lemma startup_plat w getenv :
  plat (startup w getenv) =
  let b := plat (before_google w getenv) in
  if genai_importable w then
    match snd (search w (nested_pairs (google_candidates getenv) model_names_to_try)) with
    | Some (k, m) => bind_google b k m
    | None => b
    end
  else b.
Proof.
  rewrite startup_google_resolution, google_resolution_search. simpl.
  destruct (genai_importable w); [|done].
  by destruct (search w _) as [tr [[k m]|]].
Qed.

Lemma setup_openai_keys w s :
  let p' := plat (snd (setup_openai_client w s)) in
  openai_key p' = openai_key (plat s) ∧ llama_key p' = llama_key (plat s) ∧
  claude_key p' = claude_key (plat s).
Proof.
  destruct s as [p l].
  unfold setup_openai_client, set_client, mbind, M_bind, get_plat, emit, modify_plat,
    mret, M_ret; simpl.
  destruct (openai_key p) as [k|] eqn:E; simpl; [|done].
  destruct (negb _ || _); simpl; [done|].
  by destruct (openai_ctor_ok w k).
Qed.

Lemma setup_claude_keys w s :
  let p' := plat (snd (setup_claude_client w s)) in
  openai_key p' = openai_key (plat s) ∧ llama_key p' = llama_key (plat s) ∧
  claude_key p' = claude_key (plat s).
Proof.
  destruct s as [p l].
  unfold setup_claude_client, set_client, mbind, M_bind, get_plat, emit, modify_plat,
    mret, M_ret; simpl.
  destruct (claude_key p) as [k|] eqn:E; simpl; [|done].
  destruct (negb _); simpl; [done|].
  by destruct (claude_ctor_ok w k).
Qed.

Lemma startup_llama_key w getenv :
  llama_key (plat (startup w getenv)) = getenv "LLAMA_API_KEY".
Proof.
  rewrite startup_plat. unfold before_google.
  destruct (setup_openai_keys w (Sess (init_fields getenv) [])) as (_ & L1 & _).
  destruct (setup_claude_keys w (snd (setup_openai_client w (Sess (init_fields getenv) []))))
    as (_ & L2 & _).
  simpl. destruct (genai_importable w); [destruct (snd (search _ _)) as [[k m]|]|];
    simpl; rewrite L2, L1; done.
Qed.

(** The Gemini entry after start-up holds the resolved binding. *)
Lemma startup_google_entry w getenv c :
  clients (plat (startup w getenv)) !! "google" = Some c →
  ∃ k m, c = GeminiModel k m ∧ active_google_key (plat (startup w getenv)) = Some k ∧
    active_google_model (plat (startup w getenv)) = Some m ∧
    genai_importable w = true ∧
    In (k, m) (nested_pairs (google_candidates getenv) model_names_to_try) ∧
    probe w k m = true.
Proof.
  destruct (before_google_facts w getenv) as (_ & (Hg & _) & _).
  rewrite startup_plat. simpl.
  destruct (genai_importable w) eqn:Gi; [|by rewrite Hg].
  destruct (search w _) as [tr [[k m]|]] eqn:E; simpl; [|by rewrite Hg].
  rewrite lookup_insert_eq. intros [= <-].
  destruct (search_some _ _ _ _ _ E). exists k, m. by split_and!.
Qed.

(* ------------------------------------------------------------------ *)
(** ** Runs whose events all satisfy a predicate *)

Section RunsWith.
Context (Q : event → Prop) (w : world) (p : platform).
Hypothesis respond_Q : ∀ pr prompt sys, runs_with Q (respond w pr prompt sys) p.

Lemma runs_with_ret {A} (a : A) : runs_with Q (mret a) p.
Proof. exists a, []. split; [|constructor]. intros l. by rewrite app_nil_r. Qed.

Lemma runs_with_bind {A B} (m : M A) (f : A → M B) :
  runs_with Q m p → (∀ a, runs_with Q (f a) p) → runs_with Q (m ≫= f) p.
Proof.
  intros (a & evs1 & R1 & F1) Hf. destruct (Hf a) as (b & evs2 & R2 & F2).
  exists b, (evs1 ++ evs2). split; [|by apply Forall_app].
  intros l. unfold mbind, M_bind. rewrite R1, R2. by rewrite app_assoc.
Qed.

Lemma run_models_with prompt sys models : runs_with Q (run_models w prompt sys models) p.
Proof using respond_Q.
  induction models as [|[name pr] models IH]; cbn [run_models].
  - apply runs_with_ret.
  - apply runs_with_bind; [apply respond_Q|intros r].
    apply runs_with_bind; [apply IH|intros; apply runs_with_ret].
Qed.

Lemma run_tests_with models : runs_with Q (run_tests w models) p.
Proof using respond_Q.
  induction models as [|[name pr] models IH]; cbn [run_tests].
  - apply runs_with_ret.
  - apply runs_with_bind; [apply respond_Q|intros result].
    destruct (py_startswith_mark result).
    + apply runs_with_bind; [apply IH|intros; apply runs_with_ret].
    + apply runs_with_ret.
Qed.

Lemma run_ops_with ops : runs_with Q (run_ops w ops) p.
Proof using respond_Q.
  induction ops as [|o ops IH]; cbn [run_ops].
  - apply runs_with_ret.
  - apply runs_with_bind; [|intros; apply IH].
    destruct o; cbn [run_op]; (apply runs_with_bind; [|intros; apply runs_with_ret]).
    + apply respond_Q.
    + apply run_models_with.
    + apply run_tests_with.
Qed.

Lemma interactive_loop_with lines : runs_with Q (interactive_loop w lines) p.
Proof using respond_Q.
  induction lines as [lines IH] using (induction_ltof1 _ (@length _)); unfold ltof in IH.
  destruct lines as [|line rest]; cbn [interactive_loop]; [apply runs_with_ret|].
  destruct (negb _); [apply IH; simpl; lia|].
  destruct (pystr_eqb _ (u "quit")); [apply runs_with_ret|].
  destruct (pystr_eqb _ (u "test")).
  - apply runs_with_bind; [apply run_tests_with|intros [r|e]].
    + apply IH. simpl. lia.
    + apply runs_with_ret.
  - destruct rest as [|sl rest']; [apply runs_with_ret|].
    apply runs_with_bind; [apply run_models_with|intros _].
    apply IH. simpl. lia.
Qed.

Lemma menu_loop_with lines : runs_with Q (menu_loop w lines) p.
Proof using respond_Q.
  induction lines as [|line rest IH]; cbn [menu_loop]; [apply runs_with_ret|].
  destruct (pystr_eqb _ (u "1")); [apply interactive_loop_with|].
  destruct (pystr_eqb _ (u "2")).
  - destruct rest as [|pr rest']; [apply runs_with_ret|].
    apply runs_with_bind; [apply run_models_with|intros; apply runs_with_ret].
  - destruct (pystr_eqb _ (u "3")); [apply runs_with_ret|apply IH].
Qed.

End RunsWith.

Lemma runs_with_snd Q {A} (m : M A) s :
  runs_with Q m (plat s) →
  plat (snd (m s)) = plat s ∧ ∃ evs, log (snd (m s)) = log s ++ evs ∧ Forall Q evs.
Proof.
  destruct s as [p l]. simpl. intros (a & evs & R & F). rewrite (R l). simpl.
  split; [done|eauto].
Qed.

Lemma runs_with_and Q1 Q2 {A} (m : M A) p :
  runs_with Q1 m p → runs_with Q2 m p → runs_with (λ e, Q1 e ∧ Q2 e) m p.
Proof.
  intros (a1 & evs1 & R1 & F1) (a2 & evs2 & R2 & F2).
  pose proof (eq_trans (eq_sym (R1 [])) (R2 [])) as E. simplify_eq.
  exists a2, evs2. split; [done|]. rewrite Forall_forall in F1, F2 |- *. auto.
Qed.

Lemma respond_no_assign w p pr prompt sys :
  runs_with (λ e, is_assign e = false) (respond w pr prompt sys) p.
Proof. apply respond_readonly. Qed.

(* ------------------------------------------------------------------ *)
(** ** Start-up: which providers become available *)

Lemma truthy_some k : truthy (Some k) = true ↔ k ≠ [].
Proof. destruct k; simpl; split; done. Qed.

(** [setup_openai_client] and [__init__]: after start-up, [self.clients]
    has an OpenAI entry exactly when [OPENAI_API_KEY] is set, non-empty,
    not the placeholder, and the client constructor succeeds; the entry is
    built with that key. *)
Theorem startup_openai_client w getenv c :
  clients (plat (startup w getenv)) !! "openai" = Some c ↔
  ∃ k, getenv "OPENAI_API_KEY" = Some k ∧ k ≠ [] ∧ k ≠ openai_placeholder ∧
       openai_ctor_ok w k = true ∧ c = OpenAIClient k.
Proof.
  rewrite startup_lookup_ne by done. rewrite before_google_openai.
  destruct (getenv "OPENAI_API_KEY") as [k|].
  - destruct (truthy (Some k)) eqn:T; simpl.
    + destruct (pystr_eqb k openai_placeholder) eqn:P; simpl.
      * split; [done|]. intros (k' & [= <-] & _ & Hp & _). unfold pystr_eqb in P.
        apply bool_decide_eq_true in P. done.
      * unfold pystr_eqb in P. apply bool_decide_eq_false in P.
        apply truthy_some in T.
        destruct (openai_ctor_ok w k) eqn:C; split.
        -- intros [= <-]. eauto 10.
        -- by intros (k' & [= <-] & _ & _ & _ & ->).
        -- done.
        -- intros (k' & [= <-] & _ & _ & C' & _). congruence.
    + split; [done|]. intros (k' & [= <-] & Hk & _).
      apply truthy_some in Hk. congruence.
  - split; [done|]. by intros (k & ? & _).
Qed.

(** [setup_claude_client]: after start-up, [self.clients] has a Claude
    entry exactly when [CLAUDE_API_KEY] is set, non-empty, and the client
    constructor succeeds (no placeholder is checked); the entry is built
    with that key. *)
Theorem startup_claude_client w getenv c :
  clients (plat (startup w getenv)) !! "claude" = Some c ↔
  ∃ k, getenv "CLAUDE_API_KEY" = Some k ∧ k ≠ [] ∧ claude_ctor_ok w k = true ∧
       c = ClaudeClient k.
Proof.
  rewrite startup_lookup_ne by done. rewrite before_google_claude.
  destruct (getenv "CLAUDE_API_KEY") as [k|].
  - destruct (truthy (Some k)) eqn:T; simpl.
    + apply truthy_some in T.
      destruct (claude_ctor_ok w k) eqn:C; split.
      * intros [= <-]. eauto 10.
      * by intros (k' & [= <-] & _ & _ & ->).
      * done.
      * intros (k' & [= <-] & _ & C' & _). congruence.
    + split; [done|]. intros (k' & [= <-] & Hk & _).
      apply truthy_some in Hk. congruence.
  - split; [done|]. by intros (k & ? & _).
Qed.

(** [setup_google_client] and [setup_all_clients]: after start-up, Gemini
    is available exactly when the library imports and some (key, model)
    pair of the resolution loop answers its probe; Llama is available
    exactly when [LLAMA_API_KEY] is set and non-empty. *)
Theorem startup_google_llama_available w getenv :
  let p := plat (startup w getenv) in
  (available p PGoogle = true ↔
     genai_importable w = true ∧
     ∃ k m, In (k, m) (nested_pairs (google_candidates getenv) model_names_to_try) ∧
            probe w k m = true) ∧
  (available p PLlama = true ↔ ∃ k, getenv "LLAMA_API_KEY" = Some k ∧ k ≠ []).
Proof.
  simpl. split.
  - rewrite bool_decide_eq_true. split.
    + intros [c Hc]. destruct (startup_google_entry w getenv c Hc)
        as (k & m & _ & _ & _ & G & Hin & Hp). eauto.
    + intros (G & k & m & Hin & Hp).
      destruct (before_google_facts w getenv) as (_ & (Hg & _) & _).
      rewrite startup_plat. simpl. rewrite G.
      destruct (search w _) as [tr [[k' m']|]] eqn:E; simpl.
      * rewrite lookup_insert_eq. eauto.
      * rewrite (search_none _ _ _ E k m Hin) in Hp. done.
  - rewrite startup_llama_key. destruct (getenv "LLAMA_API_KEY") as [k|].
    + rewrite truthy_some. split; [eauto|]. by intros (k' & [= <-] & ?).
    + split; [done|]. by intros (k & ? & _).
Qed.

Lemma available_startup_cases w getenv pr :
  available (plat (startup w getenv)) pr = true →
  match pr with
  | POpenAI => ∃ k, getenv "OPENAI_API_KEY" = Some k ∧ k ≠ [] ∧ k ≠ openai_placeholder
  | PClaude => ∃ k, getenv "CLAUDE_API_KEY" = Some k ∧ k ≠ []
  | PGoogle => google_candidates getenv ≠ []
  | PLlama => ∃ k, getenv "LLAMA_API_KEY" = Some k ∧ k ≠ []
  end.
Proof.
  destruct pr; simpl; intros H.
  - apply bool_decide_eq_true in H as [c Hc]. revert Hc.
    rewrite startup_lookup_ne by done. rewrite before_google_openai.
    destruct (getenv "OPENAI_API_KEY") as [k|]; [|done].
    destruct (truthy (Some k)) eqn:T; [|done]. apply truthy_some in T.
    destruct (pystr_eqb k openai_placeholder) eqn:P; [done|].
    unfold pystr_eqb in P. apply bool_decide_eq_false in P. eauto.
  - apply bool_decide_eq_true in H as [c Hc]. revert Hc.
    rewrite startup_lookup_ne by done. rewrite before_google_claude.
    destruct (getenv "CLAUDE_API_KEY") as [k|]; [|done].
    destruct (truthy (Some k)) eqn:T; [|done]. apply truthy_some in T. eauto.
  - apply bool_decide_eq_true in H as [c Hc].
    destruct (startup_google_entry w getenv c Hc) as (k & m & _ & _ & _ & _ & Hin & _).
    apply nested_pairs_in in Hin as [Hk _].
    by destruct (google_candidates getenv).
  - revert H. rewrite startup_llama_key.
    destruct (getenv "LLAMA_API_KEY") as [k|]; [|done].
    rewrite truthy_some. eauto.
Qed.

(** [check_all_api_keys] (called by [__init__] before the clients are set
    up): every provider available after start-up is counted as configured
    in [keys_status], so the method returns [True] whenever some provider
    ends up available. *)
Theorem check_keys_cover_available w getenv :
  let s := startup w getenv in
  (∀ pr, available (plat s) pr = true →
         In (status_label pr, true) (keys_status (init_fields getenv))) ∧
  (existsb (available (plat s)) all_providers = true →
   check_all_api_keys (init_fields getenv) = true).
Proof.
  cbv zeta.
  assert (H : ∀ pr, available (plat (startup w getenv)) pr = true →
              In (status_label pr, true) (keys_status (init_fields getenv))).
  { intros pr Hav. apply available_startup_cases in Hav.
    unfold google_candidates in Hav. unfold keys_status, init_fields in *; simpl.
    destruct pr.
    - destruct Hav as (k & -> & Hk & Hp). left. f_equal.
      destruct k as [|c k]; [done|]. simpl. unfold pystr_eqb.
      by rewrite bool_decide_eq_false_2.
    - destruct Hav as (k & -> & Hk). right; right; right; left. f_equal.
      by destruct k.
    - right; right; left. f_equal. simpl in Hav.
      apply Nat.ltb_lt. revert Hav. repeat case_match; simpl; intros; try done; lia.
    - destruct Hav as (k & -> & Hk). right; left. f_equal. by destruct k. }
  split; [exact H|].
  intros Hex. apply existsb_exists in Hex as (pr & _ & Hav).
  apply H in Hav. unfold check_all_api_keys. apply Nat.ltb_lt.
  assert (In (status_label pr, true) (List.filter snd (keys_status (init_fields getenv))))
    by (apply filter_In; auto).
  destruct (List.filter snd _); [done|simpl; lia].
Qed.

(** [display_platform_status]: after start-up, when Gemini is available,
    its entry names the model the resolution loop bound, one of the four
    candidate models (never ["None"]). *)
Theorem display_names_bound_model w getenv :
  let p := plat (startup w getenv) in
  available p PGoogle = true →
  ∃ m, active_google_model p = Some m ∧ In m model_names_to_try ∧
       In (u "Google Gemini (" ++ m ++ u ")") (display_platform_status p).
Proof.
  cbv zeta. intros Hav. apply bool_decide_eq_true in Hav as [c Hc].
  destruct (startup_google_entry w getenv c Hc)
    as (k & m & -> & Hk & Hm & _ & Hin & _).
  apply nested_pairs_in in Hin as [_ Hm'].
  exists m. split_and!; [done|done|].
  unfold display_platform_status. rewrite Hc, Hm.
  rewrite (bool_decide_eq_true_2 (is_Some (Some (GeminiModel k m)))) by eauto.
  apply in_app_iff; right. apply in_app_iff; right. apply in_app_iff; left.
  by left.
Qed.

Lemma display_names_bound_model_witness :
  available (plat (startup w_k2 env_backups)) PGoogle = true ∧
  ∃ m, active_google_model (plat (startup w_k2 env_backups)) = Some m ∧
       In m model_names_to_try ∧
       In (u "Google Gemini (" ++ m ++ u ")")
          (display_platform_status (plat (startup w_k2 env_backups))).
Proof.
  split; [vm_compute; reflexivity|].
  apply (display_names_bound_model w_k2 env_backups). vm_compute. reflexivity.
Defined.

(** The four [get_*_response] methods and [compare_all_models_enhanced]
    treat an empty system prompt exactly as no system prompt. *)
Theorem empty_system_prompt_ignored w pr prompt s :
  respond w pr prompt (Some []) s = respond w pr prompt None s ∧
  compare_all_models_enhanced w prompt (Some []) s = compare_all_models_enhanced w prompt None s.
Proof. split; [by destruct pr|reflexivity]. Qed.

(* ------------------------------------------------------------------ *)
(** ** Credentials used by the calls *)

Lemma respond_credentials getenv w p pr prompt sys :
  (∀ k, clients p !! "openai" = Some (OpenAIClient k) → getenv "OPENAI_API_KEY" = Some k) →
  (∀ k, clients p !! "claude" = Some (ClaudeClient k) → getenv "CLAUDE_API_KEY" = Some k) →
  (∀ k m, clients p !! "google" = Some (GeminiModel k m) →
          active_google_key p = Some k ∧ active_google_model p = Some m ∧
          In k (google_candidates getenv) ∧ In m model_names_to_try) →
  llama_key p = getenv "LLAMA_API_KEY" →
  runs_with (configured_credential getenv p) (respond w pr prompt sys) p.
Proof.
  intros Ho Hc Hg Hl. eexists _, _. split; [apply respond_runs|].
  destruct pr; respond_cases;
    try (destruct (Hg _ _ eq_refl) as (? & ? & ? & ?));
    rewrite ?Forall_singleton; try apply Forall_nil; simpl; try split_and!;
    eauto; congruence.
Qed.

Lemma startup_credentials w getenv pr prompt sys :
  let p := plat (startup w getenv) in
  runs_with (configured_credential getenv p) (respond w pr prompt sys) p.
Proof.
  apply respond_credentials.
  - intros k. rewrite startup_lookup_ne by done. rewrite before_google_openai.
    destruct (getenv "OPENAI_API_KEY"); [|done].
    repeat case_match; simpl; congruence.
  - intros k. rewrite startup_lookup_ne by done. rewrite before_google_claude.
    destruct (getenv "CLAUDE_API_KEY"); [|done].
    repeat case_match; simpl; congruence.
  - intros k m Hc. destruct (startup_google_entry w getenv _ Hc)
      as (k' & m' & [= <- <-] & Hk & Hm & _ & Hin & _).
    apply nested_pairs_in in Hin as [? ?]. by split_and!.
  - apply startup_llama_key.
Qed.

(** [main]: from the end of start-up to the end of the program (test, menu,
    interactive loop, comparisons), the platform is left unchanged, no
    attribute is assigned, and every API call uses the credential start-up
    configured for it: the OpenAI, Claude and Llama calls the key of their
    environment variable, the Gemini calls the bound key and model, a
    candidate key and one of the four model names. *)
Theorem main_calls_use_configured_credentials w getenv lines :
  let s0 := startup w getenv in
  let s1 := snd (main w getenv lines) in
  plat s1 = plat s0 ∧
  ∃ evs, log s1 = log s0 ++ evs ∧
    Forall (λ e, is_assign e = false ∧ configured_credential getenv (plat s0) e) evs.
Proof.
  cbv zeta. unfold main. apply runs_with_snd.
  assert (HQ : ∀ pr prompt sys,
    runs_with (λ e, is_assign e = false ∧
                    configured_credential getenv (plat (startup w getenv)) e)
      (respond w pr prompt sys) (plat (startup w getenv))).
  { intros. apply runs_with_and; [apply respond_no_assign|apply startup_credentials]. }
  apply runs_with_bind; [apply (run_tests_with _ _ _ HQ)|intros [ws|e]].
  - case_match; [apply (menu_loop_with _ _ _ HQ)|apply runs_with_ret].
  - apply runs_with_ret.
Qed.

(* ------------------------------------------------------------------ *)
(** ** What [run_enhanced_4model_test] reports *)

Lemma unmarked_available w pr prompt sys p :
  marked (fst (respond w pr prompt sys (Sess p []))) = false → available p pr = true.
Proof.
  destruct (available p pr) eqn:A; [done|].
  rewrite (respond_unavailable _ _ _ _ _ _ A). by destruct pr.
Qed.

Lemma run_tests_strings w models p l :
  (∀ name pr, In (name, pr) models →
     ∃ str, fst (respond w pr test_prompt None (Sess p [])) = PStr str) →
  fst (run_tests w models (Sess p l)) =
  PyOk (map fst (List.filter (λ mp, available p mp.2 &&
                   negb (marked (fst (respond w mp.2 test_prompt None (Sess p []))))) models)).
Proof.
  revert l. induction models as [|[name pr] models IH]; intros l Hs; [done|].
  cbn [run_tests]. unfold mbind at 1, M_bind at 1.
  rewrite (respond_runs w pr test_prompt None p l). cbn [fst snd].
  destruct (Hs name pr (or_introl eq_refl)) as [str Hstr]. rewrite Hstr.
  assert (Hm : py_startswith_mark (PStr str) = PyOk (marked (PStr str)))
    by (destruct str; done).
  rewrite Hm. unfold mbind at 1, M_bind at 1.
  specialize (IH (l ++ log (snd (respond w pr test_prompt None (Sess p [])))))
    as IH'.
  destruct (run_tests w models _) as [r s'] eqn:E. cbn [fst snd] in *.
  rewrite IH' by (intros; eapply Hs; by right). cbn [List.filter map fst snd].
  rewrite Hstr. destruct (marked (PStr str)) eqn:Mk.
  - by rewrite andb_false_r.
  - rewrite <-Hstr in Mk. rewrite (unmarked_available _ _ _ _ _ Mk). done.
Qed.

(** [run_enhanced_4model_test]: when every provider's answer to the test
    prompt is a string, the method returns the names of the models whose
    answer does not start with the cross mark, in test order; every such
    model is available. *)
Theorem test_reports_unmarked w s :
  (∀ pr, ∃ str, fst (respond w pr test_prompt None s) = PStr str) →
  fst (run_enhanced_4model_test w s) =
  PyOk (map fst (List.filter (λ mp, available (plat s) mp.2 &&
                   negb (marked (fst (respond w mp.2 test_prompt None s)))) test_models)).
Proof.
  destruct s as [p l]. intros Hs. unfold run_enhanced_4model_test.
  rewrite run_tests_strings.
  - f_equal. f_equal. apply List.filter_ext. intros [name pr]. cbn [snd].
    by rewrite (respond_fst w pr test_prompt None p l).
  - intros name pr _. rewrite <-(respond_fst w pr test_prompt None p l). apply Hs.
Qed.

Lemma test_reports_unmarked_witness :
  fst (run_enhanced_4model_test w_k2 (startup w_k2 env_backups)) =
  PyOk [u "Google Gemini"; u "Meta Llama"].
Proof.
  rewrite (test_reports_unmarked w_k2 (startup w_k2 env_backups)).
  - vm_compute. reflexivity.
  - intros []; eexists; vm_compute; reflexivity.
Defined.

Lemma run_tests_exc w models p l i name pr e :
  clients_ok p →
  models !! i = Some (name, pr) →
  (∀ j name' pr', j < i → models !! j = Some (name', pr') →
     ∃ str, fst (respond w pr' test_prompt None (Sess p [])) = PStr str) →
  py_startswith_mark (fst (respond w pr test_prompt None (Sess p []))) = PyExc e →
  fst (run_tests w models (Sess p l)) = PyExc e ∧
  ∃ evs, snd (run_tests w models (Sess p l)) = Sess p (l ++ evs) ∧
    provider_calls evs = List.filter (available p) (map snd (take (S i) models)).
Proof.
  intros Hok. revert models l. induction i as [|i IH];
    intros [|[n0 pr0] models] l Hi Hpre He; try done.
  - injection Hi as -> ->. cbn [run_tests]. unfold mbind, M_bind.
    rewrite (respond_runs w pr test_prompt None p l). cbn [fst snd]. rewrite He.
    split; [done|]. eexists. split; [reflexivity|].
    destruct (respond_events w pr test_prompt None p) as [_ Hc].
    rewrite (Hc Hok). simpl. by destruct (available p pr).
  - cbn [run_tests]. unfold mbind, M_bind.
    rewrite (respond_runs w pr0 test_prompt None p l). cbn [fst snd].
    destruct (Hpre 0 n0 pr0 ltac:(lia) eq_refl) as [str Hstr]. rewrite Hstr.
    assert (Hm : py_startswith_mark (PStr str) = PyOk (marked (PStr str)))
      by (destruct str; done).
    rewrite Hm.
    destruct (IH models (l ++ log (snd (respond w pr0 test_prompt None (Sess p [])))) Hi)
      as (Hr & evs & Hs & Hcalls); [|done|].
    { intros j n' p' Hj Hl. apply (Hpre (S j) n' p'); [lia|done]. }
    destruct (run_tests w models _) as [r s'] eqn:E. cbn [fst snd] in *. subst r s'.
    split; [done|]. eexists. rewrite <-app_assoc. split; [reflexivity|].
    unfold provider_calls in *. rewrite omap_app, Hcalls.
    destruct (respond_events w pr0 test_prompt None p) as [_ Hc].
    unfold provider_calls in Hc. rewrite (Hc Hok). cbn [take map List.filter snd].
    by destruct (available p pr0).
Qed.

(** [run_enhanced_4model_test]: when the answer of test model [i] is not a
    string (so [result.startswith] raises) and the answers before it are
    strings, the method raises that exception, and the providers it called
    are the available ones among the first [i + 1] test models: the models
    after [i] are never queried. *)
Theorem test_stops_at_non_string w s i name pr e :
  clients_ok (plat s) →
  test_models !! i = Some (name, pr) →
  (∀ j name' pr', j < i → test_models !! j = Some (name', pr') →
     ∃ str, fst (respond w pr' test_prompt None s) = PStr str) →
  py_startswith_mark (fst (respond w pr test_prompt None s)) = PyExc e →
  fst (run_enhanced_4model_test w s) = PyExc e ∧
  ∃ evs, log (snd (run_enhanced_4model_test w s)) = log s ++ evs ∧
    provider_calls evs = List.filter (available (plat s)) (map snd (take (S i) test_models)).
Proof.
  destruct s as [p l]. cbn [plat log]. intros Hok Hi Hpre He.
  rewrite (respond_fst w pr test_prompt None p l) in He.
  destruct (run_tests_exc w test_models p l i name pr e Hok Hi) as (Hr & evs & Hs & Hc).
  - intros j n' p' Hj Hl. rewrite <-(respond_fst w p' test_prompt None p l). eauto.
  - done.
  - unfold run_enhanced_4model_test. rewrite Hr, Hs. eauto.
Qed.

Lemma test_stops_at_non_string_witness :
  fst (run_enhanced_4model_test w_openai_none (startup w_openai_none env_openai_llama)) =
    PyExc (u "'NoneType' object has no attribute 'startswith'") ∧
  ∃ evs, log (snd (run_enhanced_4model_test w_openai_none
                     (startup w_openai_none env_openai_llama))) =
         log (startup w_openai_none env_openai_llama) ++ evs ∧
    provider_calls evs = [POpenAI].
Proof.
  apply (test_stops_at_non_string w_openai_none (startup w_openai_none env_openai_llama)
           0 (u "OpenAI GPT-4") POpenAI).
  - apply startup_clients_ok.
  - reflexivity.
  - intros j n' p' Hj. lia.
  - vm_compute. reflexivity.
Defined.

(* ------------------------------------------------------------------ *)
(** ** How the interactive loop and [main] end *)

(** [interactive_mode_enhanced]: the loop returns normally only at a line
    that reads [quit] once stripped and lower-cased; the lines after it are
    left unread. *)
Theorem interactive_ends_only_at_quit w lines s :
  fst (fst (interactive_mode_enhanced w lines s)) = PyOk tt →
  ∃ i l, lines !! i = Some l ∧ py_lower (py_strip l) = u "quit" ∧
         snd (fst (interactive_mode_enhanced w lines s)) = drop (S i) lines.
Proof.
  unfold interactive_mode_enhanced. revert s.
  induction lines as [lines IH] using (induction_ltof1 _ (@length _)); unfold ltof in IH.
  intros s. destruct lines as [|line rest]; cbn [interactive_loop]; [done|].
  cbv zeta.
  destruct (negb _).
  { intros H. destruct (IH rest ltac:(simpl; lia) s H) as (i & l & Hi & Hq & Hr).
    exists (S i), l. by split_and!. }
  destruct (pystr_eqb _ (u "quit")) eqn:Q.
  { intros _. exists 0, line. unfold pystr_eqb in Q. apply bool_decide_eq_true in Q.
    by split_and!. }
  destruct (pystr_eqb _ (u "test")).
  - unfold mbind, M_bind. destruct (run_enhanced_4model_test w s) as [[ws|e] s'].
    + intros H. destruct (IH rest ltac:(simpl; lia) s' H) as (i & l & Hi & Hq & Hr).
      exists (S i), l. by split_and!.
    + done.
  - destruct rest as [|sl rest']; [done|].
    unfold mbind, M_bind. destruct (compare_all_models_enhanced _ _ _ s) as [r s'].
    intros H. destruct (IH rest' ltac:(simpl; lia) s' H) as (i & l & Hi & Hq & Hr).
    exists (S (S i)), l. by split_and!.
Qed.

Lemma interactive_ends_only_at_quit_witness :
  ∃ i l, [u "  "; u "hello"; u ""; u " Quit "; u "more"] !! i = Some l ∧
    py_lower (py_strip l) = u "quit" ∧
    snd (fst (interactive_mode_enhanced w_k2 [u "  "; u "hello"; u ""; u " Quit "; u "more"]
                (startup w_k2 env_backups))) =
      drop (S i) [u "  "; u "hello"; u ""; u " Quit "; u "more"].
Proof.
  apply interactive_ends_only_at_quit. vm_compute. reflexivity.
Defined.

(** [main]: when the connection test finds no working model (or raises),
    [main] reads no line of input; it ends with the test's session, and
    normally unless the test raised. *)
Theorem main_no_input_without_working_model w getenv lines :
  let r := run_enhanced_4model_test w (startup w getenv) in
  (∀ ws, fst r = PyOk ws → ws = []) →
  main w getenv lines =
    ((match fst r with PyOk _ => PyOk tt | PyExc e => PyExc e end, lines), snd r).
Proof.
  cbv zeta. intros H. unfold main, mbind, M_bind.
  destruct (run_enhanced_4model_test w (startup w getenv)) as [[ws|e] s'].
  - rewrite (H ws eq_refl). done.
  - done.
Qed.

Lemma main_no_input_without_working_model_witness :
  snd (fst (main w_all_fail env_backups [u "1"; u "quit"])) = [u "1"; u "quit"].
Proof.
  rewrite (main_no_input_without_working_model w_all_fail env_backups [u "1"; u "quit"]).
  - reflexivity.
  - intros ws Hws. vm_compute in Hws. by injection Hws.
Defined.
